(** * Realtime voice console: session lifecycle, event history, credential
    store and token relay

    A shallow embedding of [src/client/components/App.jsx],
    [src/client/components/SessionControls.jsx] and [src/server.js].

    JavaScript objects that the code mutates in place (the messages handed to
    [sendClientEvent], the events parsed by the channel listener) live in a
    heap and are passed by reference; React state and refs of the [App]
    component are the fields of [Component]; the browser objects (peer
    connections, data channels, media tracks, local storage, the console and
    alert boxes) are the fields of [Browser].  An [async] function is run to
    completion, consuming at each [await] the outcome the environment
    supplies for it. *)

From Stdlib Require Import ZArith NArith Ascii String.
From stdpp Require Import gmap strings list fin_maps.

Open Scope string_scope.
Set Warnings "-register-all".

(* ===================================================================== *)
(** ** JavaScript values, objects and [JSON.stringify] *)
(* ===================================================================== *)

Module Js.

(** A number, as far as this code can tell numbers apart: whether it is
    one of the falsy ones ([0], [-0], [NaN]), and the text that
    [JSON.stringify] writes for it (that of [Number::toString], or [null]
    for [NaN] and the infinities).  The code does no arithmetic. *)
Record number : Type := Number { falsy : bool; json : string }.

(** JSON-shaped values. *)
Inductive value : Type :=
| VUndef
| VNull
| VBool (b : bool)
| VNum (n : number)
| VStr (s : string)
| VArr (elems : list value)
| VObj (members : list (string * value)).

(** ToBoolean: what [!x] and [x || y] test. *)
Definition truthy (v : value) : bool :=
  match v with
  | VUndef | VNull => false
  | VBool b => b
  | VNum n => negb (falsy n)
  | VStr s => negb (String.eqb s "")
  | VArr _ | VObj _ => true
  end.

(** Own string-keyed properties of an object, in insertion order. *)
Definition props := list (string * value).

(** [o.k]: the value of the property, [undefined] when absent. *)
Fixpoint get (k : string) (ps : props) : value :=
  match ps with
  | [] => VUndef
  | (k', v) :: r => if String.eqb k k' then v else get k r
  end.

(** [k in o] for own properties. *)
Fixpoint has (k : string) (ps : props) : bool :=
  match ps with
  | [] => false
  | (k', _) :: r => if String.eqb k k' then true else has k r
  end.

(** [o.k = v]: overwrite in place, or append a new property. *)
Fixpoint set (k : string) (v : value) (ps : props) : props :=
  match ps with
  | [] => [(k, v)]
  | (k', v') :: r =>
      if String.eqb k k' then (k', v) :: r else (k', v') :: set k v r
  end.

(** A heap object: a plain object, or an array ([elems] is [Some]) that
    can carry extra named properties as any JavaScript array can. *)
Record cell : Type := Cell { elems : option (list value); fields : props }.

Definition plain (ps : props) : cell := Cell None ps.

Definition cell_set (k : string) (v : value) (c : cell) : cell :=
  Cell (elems c) (set k v (fields c)).

(** A string that is never empty: what [crypto.randomUUID()] and
    [Date.prototype.toLocaleTimeString()] return. *)
Record text1 : Type := Text1 { first_char : ascii; rest : string }.

Definition text (t : text1) : string := String (first_char t) (rest t).

(** *** JSON.stringify *)

Definition dquote : ascii := ascii_of_nat 34.
Definition backslash : ascii := ascii_of_nat 92.

Definition hex_digit (n : nat) : ascii :=
  match n with
  | 0 => "0" | 1 => "1" | 2 => "2" | 3 => "3" | 4 => "4" | 5 => "5"
  | 6 => "6" | 7 => "7" | 8 => "8" | 9 => "9" | 10 => "a" | 11 => "b"
  | 12 => "c" | 13 => "d" | 14 => "e" | _ => "f"
  end%char.

(** QuoteJSONString on one code unit. *)
Definition escape_char (c : ascii) : string :=
  let n := nat_of_ascii c in
  if Nat.eqb n 34 then String backslash (String dquote "")
  else if Nat.eqb n 92 then String backslash (String backslash "")
  else if Nat.eqb n 8 then String backslash "b"
  else if Nat.eqb n 9 then String backslash "t"
  else if Nat.eqb n 10 then String backslash "n"
  else if Nat.eqb n 12 then String backslash "f"
  else if Nat.eqb n 13 then String backslash "r"
  else if Nat.ltb n 32 then
    String backslash
      (String "u" (String "0" (String "0"
         (String (hex_digit (n / 16)) (String (hex_digit (n mod 16)) "")))))
  else String c "".

Fixpoint escape (s : string) : string :=
  match s with
  | EmptyString => ""
  | String c r => escape_char c +:+ escape r
  end.

Definition quote (s : string) : string :=
  String dquote (escape s) +:+ String dquote "".

(** An array index: the canonical decimal text of an integer below
    [2^32 - 1].  Such keys come first, in ascending order, when the
    properties of an object are enumerated; the others follow in the order
    in which they were created. *)
Definition digit_of (c : ascii) : option N :=
  let n := N_of_ascii c in
  if (N.leb 48 n && N.leb n 57)%bool then Some (n - 48)%N else None.

Fixpoint decimal (s : string) (acc : N) : option N :=
  match s with
  | EmptyString => Some acc
  | String c r =>
      match digit_of c with
      | Some d => decimal r (10 * acc + d)%N
      | None => None
      end
  end.

Definition array_index (k : string) : option N :=
  match k with
  | EmptyString => None
  | String c r =>
      if Ascii.eqb c "0"
      then match r with EmptyString => Some 0%N | _ => None end
      else if Nat.ltb 10 (String.length k) then None
      else match decimal k 0 with
           | Some n => if (n <? 4294967295)%N then Some n else None
           | None => None
           end
  end.

Fixpoint insert_index (i : N) (t : string) (l : list (N * string))
  : list (N * string) :=
  match l with
  | [] => [(i, t)]
  | (j, u) :: r =>
      if (i <? j)%N then (i, t) :: (j, u) :: r
      else (j, u) :: insert_index i t r
  end.

(** The serialized members of an object, in the order of
    [OrdinaryOwnPropertyKeys]. *)
Fixpoint indexed_members (ms : list (string * string)) : list (N * string) :=
  match ms with
  | [] => []
  | (k, t) :: r =>
      match array_index k with
      | Some i => insert_index i t (indexed_members r)
      | None => indexed_members r
      end
  end.

Fixpoint named_members (ms : list (string * string)) : list string :=
  match ms with
  | [] => []
  | (k, t) :: r =>
      match array_index k with
      | Some _ => named_members r
      | None => t :: named_members r
      end
  end.

Definition order_members (ms : list (string * string)) : list string :=
  (map snd (indexed_members ms) ++ named_members ms)%list.

Fixpoint join_comma (l : list string) : string :=
  match l with
  | [] => ""
  | [t] => t
  | t :: r => t +:+ "," +:+ join_comma r
  end.

(** SerializeJSONProperty.  An [undefined] member of an object is left
    out; an [undefined] element of an array is written [null]. *)
Fixpoint serialize (v : value) : string :=
  match v with
  | VUndef | VNull => "null"
  | VBool true => "true"
  | VBool false => "false"
  | VNum n => json n
  | VStr s => quote s
  | VArr xs =>
      "[" +:+
      (fix items (l : list value) (lead : bool) : string :=
         match l with
         | [] => ""
         | x :: r =>
             (if lead then "" else ",") +:+ serialize x +:+ items r false
         end) xs true
      +:+ "]"
  | VObj ms =>
      "{" +:+
      join_comma
        (order_members
           ((fix members (l : list (string * value)) : list (string * string) :=
               match l with
               | [] => []
               | (_, VUndef) :: r => members r
               | (k, x) :: r =>
                   (k, quote k +:+ ":" +:+ serialize x) :: members r
               end) ms))
      +:+ "}"
  end.

(** [JSON.stringify(o)] for a heap object [o]. *)
Definition stringify (c : cell) : string :=
  match elems c with
  | Some xs => serialize (VArr xs)
  | None => serialize (VObj (fields c))
  end.

Definition is_undef (v : value) : bool :=
  match v with VUndef => true | _ => false end.

(** The keys that [JSON.stringify] writes for a plain object: those of
    the members that are not [undefined]. *)
Fixpoint wire_keys (ps : props) : list string :=
  match ps with
  | [] => []
  | (k, v) :: r => if is_undef v then wire_keys r else k :: wire_keys r
  end.

End Js.

(* ===================================================================== *)
(** ** The browser: WebRTC objects, storage, console *)
(* ===================================================================== *)

Module Browser.

(** [RTCDataChannel.readyState]. *)
Inductive ready_state : Type := Connecting | Open | Closing | Closed.

Definition is_open (r : ready_state) : bool :=
  match r with Open => true | _ => false end.

Definition ready_state_name (r : ready_state) : string :=
  match r with
  | Connecting => "connecting"
  | Open => "open"
  | Closing => "closing"
  | Closed => "closed"
  end.

(** A [MediaStreamTrack]: live until [stop()] ends it. *)
Record Track : Type := { live : bool }.

(** An [RTCDataChannel]: the connection it was created on, its label, its
    state, the frames handed to [send] (oldest first) and whether the
    component's [message] and [open] listeners are attached. *)
Record DataChannel : Type := {
  connection : nat;
  label : string;
  readyState : ready_state;
  sent : list string;
  listening : bool
}.

(** An [RTCPeerConnection]: [senders] holds, per sender, its track
    ([None] for [sender.track === null]). *)
Record PeerConnection : Type := {
  closed : bool;
  senders : list (option nat);
  ontrack : bool;
  localDescription : option string;
  remoteDescription : option string
}.

(** One argument of a [console.error] call. *)
Inductive log_arg : Type :=
| LText (s : string)
| LObject (ref : nat)
| LValue (v : Js.value).

Record t : Type := {
  heap : list Js.cell;
  tracks : list Track;
  channels : list DataChannel;
  connections : list PeerConnection;
  localStorage : gmap string string;
  alerts : list string;
  console : list (list log_arg)
}.

Definition with_heap (h : list Js.cell) (b : t) : t :=
  {| heap := h; tracks := tracks b; channels := channels b;
     connections := connections b; localStorage := localStorage b;
     alerts := alerts b; console := console b |}.

Definition with_tracks (x : list Track) (b : t) : t :=
  {| heap := heap b; tracks := x; channels := channels b;
     connections := connections b; localStorage := localStorage b;
     alerts := alerts b; console := console b |}.

Definition with_channels (x : list DataChannel) (b : t) : t :=
  {| heap := heap b; tracks := tracks b; channels := x;
     connections := connections b; localStorage := localStorage b;
     alerts := alerts b; console := console b |}.

Definition with_connections (x : list PeerConnection) (b : t) : t :=
  {| heap := heap b; tracks := tracks b; channels := channels b;
     connections := x; localStorage := localStorage b;
     alerts := alerts b; console := console b |}.

Definition with_localStorage (x : gmap string string) (b : t) : t :=
  {| heap := heap b; tracks := tracks b; channels := channels b;
     connections := connections b; localStorage := x;
     alerts := alerts b; console := console b |}.

Definition with_alerts (x : list string) (b : t) : t :=
  {| heap := heap b; tracks := tracks b; channels := channels b;
     connections := connections b; localStorage := localStorage b;
     alerts := x; console := console b |}.

Definition with_console (x : list (list log_arg)) (b : t) : t :=
  {| heap := heap b; tracks := tracks b; channels := channels b;
     connections := connections b; localStorage := localStorage b;
     alerts := alerts b; console := x |}.

(** A browser tab that has created nothing yet. *)
Definition fresh (storage : gmap string string) : t :=
  {| heap := []; tracks := []; channels := []; connections := [];
     localStorage := storage; alerts := []; console := [] |}.

(** [track.stop()]. *)
Definition stop_track (tr : Track) : Track := {| live := false |}.

(** [channel.close()]: nothing on a channel already closing or closed,
    otherwise the closing procedure starts. *)
Definition close_channel (d : DataChannel) : DataChannel :=
  match readyState d with
  | Closing | Closed => d
  | _ => {| connection := connection d; label := label d;
            readyState := Closing; sent := sent d;
            listening := listening d |}
  end.


Definition push_frame (frame : string) (d : DataChannel) : DataChannel :=
  {| connection := connection d; label := label d;
     readyState := readyState d;
     sent := sent d ++ [frame]; listening := listening d |}.

Definition attach_listeners (d : DataChannel) : DataChannel :=
  {| connection := connection d; label := label d;
     readyState := readyState d; sent := sent d;
     listening := true |}.

Definition set_ready_state (r : ready_state) (d : DataChannel) : DataChannel :=
  {| connection := connection d; label := label d; readyState := r;
     sent := sent d;
     listening := listening d |}.

(** The connection itself after [pc.close()]; what [pc.close()] does to
    the browser as a whole is [close_RTCPeerConnection] below. *)
Definition close_connection (p : PeerConnection) : PeerConnection :=
  {| closed := true; senders := senders p; ontrack := ontrack p;
     localDescription := localDescription p;
     remoteDescription := remoteDescription p |}.

Definition add_sender (tr : nat) (p : PeerConnection) : PeerConnection :=
  {| closed := closed p; senders := senders p ++ [Some tr];
     ontrack := ontrack p; localDescription := localDescription p;
     remoteDescription := remoteDescription p |}.

Definition set_ontrack (p : PeerConnection) : PeerConnection :=
  {| closed := closed p; senders := senders p; ontrack := true;
     localDescription := localDescription p;
     remoteDescription := remoteDescription p |}.

Definition set_local (sdp : string) (p : PeerConnection) : PeerConnection :=
  {| closed := closed p; senders := senders p; ontrack := ontrack p;
     localDescription := Some sdp;
     remoteDescription := remoteDescription p |}.

Definition set_remote (sdp : string) (p : PeerConnection) : PeerConnection :=
  {| closed := closed p; senders := senders p; ontrack := ontrack p;
     localDescription := localDescription p;
     remoteDescription := Some sdp |}.

Definition new_connection : PeerConnection :=
  {| closed := false; senders := []; ontrack := false;
     localDescription := None; remoteDescription := None |}.

Definition new_channel (pc : nat) (name : string) : DataChannel :=
  {| connection := pc; label := name; readyState := Connecting; sent := [];
     listening := false |}.

(** What closing connection [pc] does to a channel: a channel created on
    that connection is set to [closed], abruptly (no closing procedure, no
    event); any other channel is left alone. *)
Definition closed_by (pc : nat) (d : DataChannel) : DataChannel :=
  if Nat.eqb (connection d) pc then set_ready_state Closed d else d.

(** [pc.close()] for connection number [pc]: nothing if the connection is
    already closed; otherwise the connection is closed and every data
    channel created on it is set to [closed].  The tracks of its senders
    are not stopped. *)
Definition close_RTCPeerConnection (pc : nat) (b : t) : t :=
  match connections b !! pc with
  | Some c =>
      if closed c then b
      else with_channels (closed_by pc <$> channels b)
             (with_connections (alter close_connection pc (connections b)) b)
  | None => b
  end.

End Browser.

(* ===================================================================== *)
(** ** Running JavaScript: state and exceptions *)
(* ===================================================================== *)

(** A reference to a heap object, or a primitive ([null], [undefined], a
    boolean, a number, a string). *)
Inductive arg : Type :=
| Ref (l : nat)
| Prim (v : Js.value).

(** React state and refs of the [App] component.  [events] holds the
    history, most recent first: references to the very objects that were
    sent or parsed.  [peerConnection] and [audioElement] are the [.current]
    of the two refs. *)
Record Component : Type := {
  isSessionActive : bool;
  events : list arg;
  dataChannel : option nat;
  apiKey : string;
  isKeyValid : bool;
  peerConnection : option nat;
  audioElement : option bool
}.

Record World : Type := { component : Component; browser : Browser.t }.

(** How a call ends: it returns, or it throws an error with a message. *)
Inductive completion (A : Type) : Type :=
| Return (a : A)
| Throw (message : string).
Arguments Return {A} a.
Arguments Throw {A} message.

Definition Run (A : Type) : Type := World -> completion A * World.

Definition ret {A} (a : A) : Run A := fun w => (Return a, w).

Definition throw {A} (message : string) : Run A := fun w => (Throw message, w).

Definition bind {A B} (m : Run A) (k : A -> Run B) : Run B :=
  fun w =>
    match m w with
    | (Return a, w') => k a w'
    | (Throw e, w') => (Throw e, w')
    end.

(** [try { m } catch (error) { handler(error.message) }]. *)
Definition try_catch {A} (m : Run A) (handler : string -> Run A) : Run A :=
  fun w =>
    match m w with
    | (Return a, w') => (Return a, w')
    | (Throw e, w') => handler e w'
    end.

Notation "'let*' x := m 'in' k" := (bind m (fun x => k))
  (at level 10, x name, m at level 100, k at level 200).
Notation "m ;; k" := (bind m (fun _ => k))
  (at level 100, k at level 200, right associativity).

Definition read {A} (f : World -> A) : Run A := fun w => (Return (f w), w).

Definition update_app (f : Component -> Component) : Run unit :=
  fun w => (Return tt, {| component := f (component w); browser := browser w |}).

Definition update_browser (f : Browser.t -> Browser.t) : Run unit :=
  fun w => (Return tt, {| component := component w; browser := f (browser w) |}).

(** The world a call leaves behind, and whether it threw. *)
Definition after {A} (m : Run A) (w : World) : World := (m w).2.

Definition threw {A} (m : Run A) (w : World) : bool :=
  match (m w).1 with Throw _ => true | Return _ => false end.

(** *** State setters *)

Definition setIsSessionActive (v : bool) : Run unit :=
  update_app (fun c =>
    {| isSessionActive := v; events := events c;
       dataChannel := dataChannel c; apiKey := apiKey c;
       isKeyValid := isKeyValid c; peerConnection := peerConnection c;
       audioElement := audioElement c |}).

Definition setEvents (f : list arg -> list arg) : Run unit :=
  update_app (fun c =>
    {| isSessionActive := isSessionActive c; events := f (events c);
       dataChannel := dataChannel c; apiKey := apiKey c;
       isKeyValid := isKeyValid c; peerConnection := peerConnection c;
       audioElement := audioElement c |}).

Definition store_dataChannel (v : option nat) : Run unit :=
  update_app (fun c =>
    {| isSessionActive := isSessionActive c; events := events c;
       dataChannel := v; apiKey := apiKey c;
       isKeyValid := isKeyValid c; peerConnection := peerConnection c;
       audioElement := audioElement c |}).

Definition store_apiKey (v : string) : Run unit :=
  update_app (fun c =>
    {| isSessionActive := isSessionActive c; events := events c;
       dataChannel := dataChannel c; apiKey := v;
       isKeyValid := isKeyValid c; peerConnection := peerConnection c;
       audioElement := audioElement c |}).

Definition setIsKeyValid (v : bool) : Run unit :=
  update_app (fun c =>
    {| isSessionActive := isSessionActive c; events := events c;
       dataChannel := dataChannel c; apiKey := apiKey c;
       isKeyValid := v; peerConnection := peerConnection c;
       audioElement := audioElement c |}).

Definition set_peerConnection (v : option nat) : Run unit :=
  update_app (fun c =>
    {| isSessionActive := isSessionActive c; events := events c;
       dataChannel := dataChannel c; apiKey := apiKey c;
       isKeyValid := isKeyValid c; peerConnection := v;
       audioElement := audioElement c |}).

Definition set_audioElement (v : option bool) : Run unit :=
  update_app (fun c =>
    {| isSessionActive := isSessionActive c; events := events c;
       dataChannel := dataChannel c; apiKey := apiKey c;
       isKeyValid := isKeyValid c; peerConnection := peerConnection c;
       audioElement := v |}).

(** *** Browser calls *)

Definition alert (s : string) : Run unit :=
  update_browser (fun b => Browser.with_alerts (Browser.alerts b ++ [s]) b).

Definition console_error (args : list Browser.log_arg) : Run unit :=
  update_browser (fun b => Browser.with_console (Browser.console b ++ [args]) b).

(** [new Object]: a fresh heap object; the reference is its index. *)
Definition allocate (c : Js.cell) : Run nat :=
  fun w =>
    let b := browser w in
    (Return (length (Browser.heap b)),
     {| component := component w;
        browser := Browser.with_heap (Browser.heap b ++ [c]) b |}).

Definition new_RTCPeerConnection : Run nat :=
  fun w =>
    let b := browser w in
    (Return (length (Browser.connections b)),
     {| component := component w;
        browser := Browser.with_connections
                     (Browser.connections b ++ [Browser.new_connection]) b |}).

Definition update_connection (pc : nat)
    (f : Browser.PeerConnection -> Browser.PeerConnection) : Run unit :=
  update_browser (fun b =>
    Browser.with_connections (alter f pc (Browser.connections b)) b).

Definition update_channel (dc : nat)
    (f : Browser.DataChannel -> Browser.DataChannel) : Run unit :=
  update_browser (fun b =>
    Browser.with_channels (alter f dc (Browser.channels b)) b).

Definition update_track (tr : nat)
    (f : Browser.Track -> Browser.Track) : Run unit :=
  update_browser (fun b =>
    Browser.with_tracks (alter f tr (Browser.tracks b)) b).

(** [pc.createDataChannel(name)]. *)
Definition createDataChannel (pc : nat) (name : string) : Run nat :=
  fun w =>
    let b := browser w in
    (Return (length (Browser.channels b)),
     {| component := component w;
        browser := Browser.with_channels
                     (Browser.channels b ++ [Browser.new_channel pc name]) b |}).

(** [channel.send(frame)]: an [InvalidStateError] unless the channel is
    open. *)
Definition channel_send (dc : nat) (frame : string) : Run unit :=
  let* st := read (fun w => Browser.readyState <$> Browser.channels (browser w) !! dc) in
  match st with
  | Some Browser.Open => update_channel dc (Browser.push_frame frame)
  | _ => throw "InvalidStateError: RTCDataChannel.readyState is not 'open'"
  end.

(** *** What the environment answers at an [await] *)

Inductive settled (A : Type) : Type :=
| Fulfilled (a : A)
| Rejected (reason : string).
Arguments Fulfilled {A} a.
Arguments Rejected {A} reason.

Definition await {A} (p : settled A) : Run A :=
  match p with
  | Fulfilled a => ret a
  | Rejected reason => throw reason
  end.

(** A [fetch] response: [response.ok] and the promise of [response.text()]. *)
Record Response : Type := { ok : bool; text : settled string }.

(** [x.k] *)
Definition get_property (x : arg) (k : string) : Run Js.value :=
  match x with
  | Ref l =>
      let* c := read (fun w => Browser.heap (browser w) !! l) in
      match c with
      | Some c => ret (Js.get k (Js.fields c))
      | None => throw "ReferenceError: no such object"
      end
  | Prim Js.VUndef | Prim Js.VNull =>
      throw ("TypeError: Cannot read properties of null or undefined (reading '" +:+ k +:+ "')")
  | Prim _ => ret Js.VUndef
  end.

(** [x.k = v], in strict mode (the sources are ES modules). *)
Definition set_property (x : arg) (k : string) (v : Js.value) : Run unit :=
  match x with
  | Ref l =>
      let* c := read (fun w => Browser.heap (browser w) !! l) in
      match c with
      | Some _ =>
          update_browser (fun b =>
            Browser.with_heap (alter (Js.cell_set k v) l (Browser.heap b)) b)
      | None => throw "ReferenceError: no such object"
      end
  | Prim Js.VUndef | Prim Js.VNull =>
      throw ("TypeError: Cannot set properties of null or undefined (setting '" +:+ k +:+ "')")
  | Prim _ =>
      throw ("TypeError: Cannot create property '" +:+ k +:+ "' on a primitive")
  end.

(** [JSON.stringify(x)] *)
Definition JSON_stringify (x : arg) : Run string :=
  match x with
  | Ref l =>
      let* c := read (fun w => Browser.heap (browser w) !! l) in
      match c with
      | Some c => ret (Js.stringify c)
      | None => throw "ReferenceError: no such object"
      end
  | Prim v => ret (Js.serialize v)
  end.

(** The value [JSON.parse] built, as something the listener can hold:
    objects and arrays are fresh heap objects. *)
Definition materialize (v : Js.value) : Run arg :=
  match v with
  | Js.VObj ms => let* l := allocate (Js.plain ms) in ret (Ref l)
  | Js.VArr xs => let* l := allocate (Js.Cell (Some xs) []) in ret (Ref l)
  | _ => ret (Prim v)
  end.

Definition log_of (x : arg) : Browser.log_arg :=
  match x with
  | Ref l => Browser.LObject l
  | Prim v => Browser.LValue v
  end.

Fixpoint forEach {A} (xs : list A) (f : A -> Run unit) : Run unit :=
  match xs with
  | [] => ret tt
  | x :: r => f x ;; forEach r f
  end.

(* ===================================================================== *)
(** ** App.jsx *)
(* ===================================================================== *)

Definition storage_key : string := "openai_api_key".

(** [useEffect(() => { if (apiKey) localStorage.setItem(...) }, [apiKey])] *)
Definition persist_apiKey : Run unit :=
  let* key := read (fun w => apiKey (component w)) in
  if Js.truthy (Js.VStr key) then
    update_browser (fun b =>
      Browser.with_localStorage (<[storage_key := key]> (Browser.localStorage b)) b)
  else ret tt.

(** [setApiKey(value)]: the state changes, and the effect on [[apiKey]]
    runs if the value is a different one. *)
Definition setApiKey (value : string) : Run unit :=
  let* previous := read (fun w => apiKey (component w)) in
  store_apiKey value ;;
  if String.eqb previous value then ret tt else persist_apiKey.

(** The effect on [[dataChannel]]: the [message] and [open] listeners are
    attached to a new channel. *)
Definition wire_dataChannel : Run unit :=
  let* dc := read (fun w => dataChannel (component w)) in
  match dc with
  | Some d => update_channel d Browser.attach_listeners
  | None => ret tt
  end.

Definition setDataChannel (v : option nat) : Run unit :=
  store_dataChannel v ;; wire_dataChannel.

Definition validateApiKey (key : string) (probe : settled Response) : Run bool :=
  try_catch
    (let* response := await probe in
     let isValid := ok response in
     setIsKeyValid isValid ;;
     ret isValid)
    (fun error =>
       console_error [Browser.LText "Error validating API key:"; Browser.LText error] ;;
       setIsKeyValid false ;;
       ret false).

(** [useState(localStorage.getItem(...) || "")] and the rest of the initial
    state. *)
Definition initial (storage : gmap string string) : World :=
  {| component := {| isSessionActive := false; events := []; dataChannel := None;
               apiKey := default "" (storage !! storage_key);
               isKeyValid := false; peerConnection := None;
               audioElement := None |};
     browser := Browser.fresh storage |}.

(** The effects of the first render. *)
Definition mount (probe : settled Response) : Run unit :=
  persist_apiKey ;;
  wire_dataChannel ;;
  let* key := read (fun w => apiKey (component w)) in
  if Js.truthy (Js.VStr key) then validateApiKey key probe ;; ret tt
  else ret tt.

(** What the browser and the provider answer during one [startSession]. *)
Record StartEnv : Type := {
  probe : settled Response;        (* GET /v1/models *)
  microphone : settled nat;        (* getUserMedia: tracks of the stream *)
  offer : settled string;          (* pc.createOffer(): offer.sdp *)
  localCommit : settled unit;      (* pc.setLocalDescription *)
  negotiation : settled Response;  (* POST /v1/realtime *)
  remoteCommit : settled unit      (* pc.setRemoteDescription *)
}.

(** [navigator.mediaDevices.getUserMedia({audio: true})] followed by
    [ms.getTracks()]: the new stream's tracks, all live. *)
Definition getUserMedia (p : settled nat) : Run (list nat) :=
  let* n := await p in
  let* base := read (fun w => length (Browser.tracks (browser w))) in
  update_browser (fun b =>
    Browser.with_tracks
      (Browser.tracks b ++ replicate n {| Browser.live := true |}) b) ;;
  ret (seq base n).

(** [pc.addTrack(track)] *)
Definition addTrack (pc : nat) (track : option nat) : Run unit :=
  match track with
  | None => throw "TypeError: Failed to execute 'addTrack' on 'RTCPeerConnection'"
  | Some tr =>
      let* gone := read (fun w =>
        Browser.closed <$> Browser.connections (browser w) !! pc) in
      match gone with
      | Some false => update_connection pc (Browser.add_sender tr)
      | _ => throw "InvalidStateError: the connection is closed"
      end
  end.

Definition startSession (env : StartEnv) : Run unit :=
  let* key := read (fun w => apiKey (component w)) in
  let* known := read (fun w => isKeyValid (component w)) in
  try_catch
    (if negb (Js.truthy (Js.VStr key)) then
       alert "Please enter your OpenAI API key"
     else
       let* proceed :=
         (if negb known then
            let* valid := validateApiKey key (probe env) in
            if negb valid then
              alert "Invalid API key. Please check and try again." ;;
              ret false
            else ret true
          else ret true) in
       if negb proceed then ret tt
       else
         let* pc := new_RTCPeerConnection in
         set_audioElement (Some true) ;;
         update_connection pc Browser.set_ontrack ;;
         let* ms := getUserMedia (microphone env) in
         addTrack pc (head ms) ;;
         let* dc := createDataChannel pc "oai-events" in
         setDataChannel (Some dc) ;;
         let* sdp := await (offer env) in
         await (localCommit env) ;;
         update_connection pc (Browser.set_local sdp) ;;
         let* sdpResponse := await (negotiation env) in
         (if negb (ok sdpResponse) then
            let* errorText := await (text sdpResponse) in
            throw ("API request failed: " +:+ errorText)
          else ret tt) ;;
         let* answer := await (text sdpResponse) in
         await (remoteCommit env) ;;
         update_connection pc (Browser.set_remote answer) ;;
         set_peerConnection (Some pc))
    (fun error =>
       console_error [Browser.LText "Error starting session:"; Browser.LText error] ;;
       alert ("Failed to start session: " +:+ error)).

Definition getSenders (pc : nat) : Run (list (option nat)) :=
  read (fun w =>
    default [] (Browser.senders <$> Browser.connections (browser w) !! pc)).

Definition stopSession : Run unit :=
  let* dc := read (fun w => dataChannel (component w)) in
  (match dc with
   | Some d => update_channel d Browser.close_channel
   | None => ret tt
   end) ;;
  let* pc := read (fun w => peerConnection (component w)) in
  (match pc with
   | Some p =>
       let* ss := getSenders p in
       forEach ss (fun sender =>
         match sender with
         | Some tr => update_track tr Browser.stop_track
         | None => ret tt
         end)
   | None => ret tt
   end) ;;
  (match pc with
   | Some p => update_browser (Browser.close_RTCPeerConnection p)
   | None => ret tt
   end) ;;
  setIsSessionActive false ;;
  setDataChannel None ;;
  set_peerConnection None.

(** The wall clock and the random source of one call. *)
Record Ambient : Type := { toLocaleTimeString : Js.text1; randomUUID : Js.text1 }.

Definition channel_state (dc : option nat) : Run (option Browser.ready_state) :=
  match dc with
  | Some d =>
      read (fun w => Browser.readyState <$> Browser.channels (browser w) !! d)
  | None => ret None
  end.

Definition sendClientEvent (amb : Ambient) (message : arg) : Run unit :=
  let* dc := read (fun w => dataChannel (component w)) in
  let* st := channel_state dc in
  match dc, st with
  | Some d, Some Browser.Open =>
      let timestamp := Js.text (toLocaleTimeString amb) in
      let* id := get_property message "event_id" in
      set_property message "event_id"
        (if Js.truthy id then id else Js.VStr (Js.text (randomUUID amb))) ;;
      let* frame := JSON_stringify message in
      channel_send d frame ;;
      let* ts := get_property message "timestamp" in
      (if negb (Js.truthy ts)
       then set_property message "timestamp" (Js.VStr timestamp)
       else ret tt) ;;
      setEvents (fun prev => message :: prev)
  | _, _ =>
      console_error
        [Browser.LText "Failed to send message - data channel not available or not open";
         log_of message;
         Browser.LText
           (match dc with
            | Some _ =>
                "Channel state: " +:+
                match st with
                | Some r => Browser.ready_state_name r
                | None => "undefined"
                end
            | None => "No channel"
            end)]
  end.

Definition text_event (message : string) : Js.cell :=
  Js.plain
    [("type", Js.VStr "conversation.item.create");
     ("item", Js.VObj
        [("type", Js.VStr "message");
         ("role", Js.VStr "user");
         ("content", Js.VArr
            [Js.VObj [("type", Js.VStr "input_text");
                      ("text", Js.VStr message)]])])].

Definition sendTextMessage (amb1 amb2 : Ambient) (message : string) : Run unit :=
  let* event := allocate (text_event message) in
  sendClientEvent amb1 (Ref event) ;;
  let* create := allocate (Js.plain [("type", Js.VStr "response.create")]) in
  sendClientEvent amb2 (Ref create).

Definition listening (d : nat) : Run bool :=
  read (fun w =>
    default false (Browser.listening <$> Browser.channels (browser w) !! d)).

(** The [message] listener of channel [d], on a frame for which
    [JSON.parse] gave [parsed] ([None]: it threw a [SyntaxError]). *)
Definition on_message (amb : Ambient) (d : nat) (parsed : option Js.value) : Run unit :=
  let* on := listening d in
  if negb on then ret tt
  else
    match parsed with
    | None => throw "SyntaxError: Unexpected token in JSON"
    | Some v =>
        let* event := materialize v in
        let* ts := get_property event "timestamp" in
        (if negb (Js.truthy ts)
         then set_property event "timestamp"
                (Js.VStr (Js.text (toLocaleTimeString amb)))
         else ret tt) ;;
        setEvents (fun prev => event :: prev)
    end.

(** Channel [d] opens: its state changes and the [open] listener runs. *)
Definition on_open (d : nat) : Run unit :=
  update_channel d (Browser.set_ready_state Browser.Open) ;;
  let* on := listening d in
  if negb on then ret tt
  else setIsSessionActive true ;; setEvents (fun _ => []).

(* ===================================================================== *)
(** ** SessionControls.jsx *)
(* ===================================================================== *)

Module SessionControls.

(** Local state of [SessionStopped]. *)
Record Stopped : Type := {
  isActivating : bool;
  showKeyInput : bool;
  tempApiKey : string
}.

(** [handleSaveKey]: [setApiKey(tempApiKey); setShowKeyInput(false)]. *)
Definition handleSaveKey (s : Stopped) : Stopped * Run unit :=
  ({| isActivating := isActivating s; showKeyInput := false;
      tempApiKey := tempApiKey s |},
   setApiKey (tempApiKey s)).

(** The start button carries [disabled={!isKeyValid}]. *)
Definition start_enabled (w : World) : bool := isKeyValid (component w).

(** [handleStartSession]: nothing while a start is in flight, otherwise
    [startSession()] with [isActivating] raised until it settles. *)
Definition handleStartSession (s : Stopped) (env : StartEnv) : Run unit :=
  if isActivating s then ret tt else startSession env.

End SessionControls.

(* ===================================================================== *)
(** ** server.js: GET /token *)
(* ===================================================================== *)

Module Server.

(** What [fetch] resolved to: the status line and the promise of
    [response.json()]. *)
Record Upstream : Type := { status_code : nat; json : settled Js.value }.

(** What the handler sent with [res.status(..).json(..)]. *)
Record Reply : Type := { status : nat; body : Js.value }.

Definition error_body (message : string) : Js.value :=
  Js.VObj [("error", Js.VObj [("message", Js.VStr message);
                              ("type", Js.VStr "server_error")])].

(** [process.env.OPENAI_API_KEY] is read once, when the module loads. *)
Definition env_value (v : option string) : Js.value :=
  match v with Some s => Js.VStr s | None => Js.VUndef end.

(** The handler of [app.get("/token", ...)]: its reply and what it wrote
    to the console. *)
Definition token (apiKey : option string) (upstream : settled Upstream)
  : Reply * list string :=
  if negb (Js.truthy (env_value apiKey)) then
    ({| status := 500; body := error_body "OpenAI API key not configured" |}, [])
  else
    let failed (error : string) :=
      ({| status := 500;
          body := error_body
                    (if Js.truthy (Js.VStr error) then error
                     else "Failed to generate token") |},
       ["Token generation error: " +:+ error]) in
    match upstream with
    | Rejected error => failed error
    | Fulfilled response =>
        match json response with
        | Rejected error => failed error
        | Fulfilled data => ({| status := 200; body := data |}, [])
        end
    end.

(** [response.ok]. *)
Definition succeeded (r : Upstream) : bool :=
  Nat.leb 200 (status_code r) && Nat.ltb (status_code r) 300.

End Server.


(* ===================================================================== *)
(** ** Observations used in the statements *)
(* ===================================================================== *)

(** The guard of [sendClientEvent]:
    [dataChannel && dataChannel.readyState === 'open']. *)
Definition channel_open (w : World) : bool :=
  match dataChannel (component w) with
  | Some d =>
      match Browser.channels (browser w) !! d with
      | Some ch => Browser.is_open (Browser.readyState ch)
      | None => false
      end
  | None => false
  end.

(** The state [Idle] of the session manager: not active, and neither handle
    retained. *)
Definition idle (c : Component) : Prop :=
  isSessionActive c = false /\ dataChannel c = None /\ peerConnection c = None.

(** The frames handed to channel [d] so far. *)
Definition frames (w : World) (d : nat) : list string :=
  default [] (Browser.sent <$> Browser.channels (browser w) !! d).

(** The object behind a history entry. *)
Definition object_of (w : World) (x : arg) : option Js.cell :=
  match x with
  | Ref l => Browser.heap (browser w) !! l
  | Prim _ => None
  end.

(** [haystack.includes(needle)] *)
Fixpoint prefix (p s : string) : bool :=
  match p, s with
  | EmptyString, _ => true
  | String a p', String b s' => if Ascii.eqb a b then prefix p' s' else false
  | String _ _, EmptyString => false
  end.

Fixpoint includes (needle haystack : string) : bool :=
  prefix needle haystack ||
  match haystack with
  | EmptyString => false
  | String _ r => includes needle r
  end.

(** The stored credential is the one in use, whenever one is in use: what
    the effect on [[apiKey]] maintains from the first render on. *)
Definition persisted (w : World) : Prop :=
  apiKey (component w) <> "" ->
  Browser.localStorage (browser w) !! storage_key = Some (apiKey (component w)).

(** [setCredential(value)] of the credential store: the Save button of the
    key input. *)
Definition setCredential (value : string) : Run unit :=
  (SessionControls.handleSaveKey
     {| SessionControls.isActivating := false;
        SessionControls.showKeyInput := true;
        SessionControls.tempApiKey := value |}).2.

(** *** Concrete worlds and environments *)

Definition accepted : settled Response :=
  Fulfilled {| ok := true; text := Fulfilled "{}" |}.

Definition refused : settled Response :=
  Fulfilled {| ok := false; text := Fulfilled "Incorrect API key provided" |}.

(** The application after its first render, with ["sk-old"] in local
    storage and accepted by the provider. *)
Definition validated_world : World :=
  after (mount accepted) (initial {[ storage_key := "sk-old" ]}).

Definition sample_ambient : Ambient :=
  {| toLocaleTimeString := Js.Text1 "1" "0:15:30 AM";
     randomUUID := Js.Text1 "3" "f2504e0-4f89-41d3-9a0c-0305e82c3301" |}.

Definition later_ambient : Ambient :=
  {| toLocaleTimeString := Js.Text1 "1" "0:15:42 AM";
     randomUUID := Js.Text1 "9" "c5b94b1-35ad-49bb-b118-8e8fc24abf80" |}.

(** Every step of [startSession] succeeds. *)
Definition smooth : StartEnv :=
  {| probe := accepted; microphone := Fulfilled 1; offer := Fulfilled "v=0";
     localCommit := Fulfilled tt;
     negotiation := Fulfilled {| ok := true; text := Fulfilled "v=0 answer" |};
     remoteCommit := Fulfilled tt |}.

(** The negotiation endpoint answers 403 with body [forbidden]. *)
Definition forbidden : StartEnv :=
  {| probe := accepted; microphone := Fulfilled 1; offer := Fulfilled "v=0";
     localCommit := Fulfilled tt;
     negotiation := Fulfilled {| ok := false; text := Fulfilled "forbidden" |};
     remoteCommit := Fulfilled tt |}.

(** The user denies the microphone. *)
Definition microphone_denied : StartEnv :=
  {| probe := accepted;
     microphone := Rejected "Permission denied";
     offer := Fulfilled "v=0"; localCommit := Fulfilled tt;
     negotiation := Fulfilled {| ok := true; text := Fulfilled "v=0 answer" |};
     remoteCommit := Fulfilled tt |}.

(** The provider turns the new key down, should anyone ask. *)
Definition probe_refuses : StartEnv :=
  {| probe := refused; microphone := Fulfilled 1; offer := Fulfilled "v=0";
     localCommit := Fulfilled tt;
     negotiation := Fulfilled {| ok := false; text := Fulfilled "Incorrect API key provided" |};
     remoteCommit := Fulfilled tt |}.

(** A session that started and whose channel has opened. *)
Definition active_world : World :=
  after (on_open 0) (after (startSession smooth) validated_world).

(** The provider answers 401 to the relay, with its own error body. *)
Definition provider_error : Js.value :=
  Js.VObj [("error", Js.VObj [("message", Js.VStr "Incorrect API key provided");
                              ("type", Js.VStr "invalid_request_error")])].

Definition unauthorized : settled Server.Upstream :=
  Fulfilled {| Server.status_code := 401;
               Server.json := Fulfilled provider_error |}.

(** The upstream call failed: [fetch] rejected, the provider answered with
    a non-success status, or its body was not JSON. *)
Definition upstream_failed (u : settled Server.Upstream) : bool :=
  match u with
  | Rejected _ => true
  | Fulfilled r =>
      negb (Server.succeeded r) ||
      match Server.json r with Rejected _ => true | Fulfilled _ => false end
  end.

(** The upstream call threw inside the handler: [fetch] rejected or
    [response.json()] did. *)
Definition upstream_threw (u : settled Server.Upstream) : bool :=
  match u with
  | Rejected _ => true
  | Fulfilled r =>
      match Server.json r with Rejected _ => true | Fulfilled _ => false end
  end.

Definition unconfigured (secret : option string) : bool :=
  negb (Js.truthy (Server.env_value secret)).


(** *** What [stopSession] leaves behind *)

(** The tracks after the [forEach] over the senders: the track of every
    sender that has one is stopped. *)
Definition release_tracks (ss : list (option nat)) (ts : list Browser.Track)
  : list Browser.Track :=
  foldl (fun acc sender =>
           match sender with
           | Some tr => alter Browser.stop_track tr acc
           | None => acc
           end) ts ss.

(** The senders of the retained transport, if one is retained. *)
Definition retained_senders (w : World) : list (option nat) :=
  match peerConnection (component w) with
  | Some p => default [] (Browser.senders <$> Browser.connections (browser w) !! p)
  | None => []
  end.

Definition stopped (w : World) : World :=
  let b := browser w in
  let b1 :=
    match dataChannel (component w) with
    | Some d =>
        Browser.with_channels (alter Browser.close_channel d (Browser.channels b)) b
    | None => b
    end in
  let b2 :=
    Browser.with_tracks
      (release_tracks (retained_senders w) (Browser.tracks b1)) b1 in
  {| component :=
       {| isSessionActive := false;
          events := events (component w);
          dataChannel := None;
          apiKey := apiKey (component w);
          isKeyValid := isKeyValid (component w);
          peerConnection := None;
          audioElement := audioElement (component w) |};
     browser :=
       match peerConnection (component w) with
       | Some p => Browser.close_RTCPeerConnection p b2
       | None => b2
       end |}.


(** *** What [startSession] goes through *)

(** The credential checks at the head of [startSession] pass: a key is
    present, and it is already marked valid or the provider accepts it
    now. *)
Definition credential_accepted (w : World) (env : StartEnv) : bool :=
  Js.truthy (Js.VStr (apiKey (component w))) &&
  (isKeyValid (component w) ||
   match probe env with
   | Fulfilled r => ok r
   | Rejected _ => false
   end).


(** *** Recording an event *)

(** The object after [message.event_id = message.event_id || randomUUID()]. *)
Definition identified (amb : Ambient) (c : Js.cell) : Js.cell :=
  let id := Js.get "event_id" (Js.fields c) in
  Js.cell_set "event_id"
    (if Js.truthy id then id else Js.VStr (Js.text (randomUUID amb))) c.

(** The object after [if (!x.timestamp) x.timestamp = timestamp]. *)
Definition dated (amb : Ambient) (c : Js.cell) : Js.cell :=
  if Js.truthy (Js.get "timestamp" (Js.fields c)) then c
  else Js.cell_set "timestamp" (Js.VStr (Js.text (toLocaleTimeString amb))) c.

(** Where a history entry comes from: an object handed to
    [sendClientEvent], or the value [JSON.parse] built from a frame that
    arrived on channel [d]. *)
Inductive source : Type :=
| Local (l : nat)
| Remote (d : nat) (parsed : Js.value).

Definition record (amb : Ambient) (s : source) : Run unit :=
  match s with
  | Local l => sendClientEvent amb (Ref l)
  | Remote d parsed => on_message amb d (Some parsed)
  end.

(** The event as created: the object as it is when handed over, or as
    parsed. *)
Definition original (w : World) (s : source) : option Js.cell :=
  match s with
  | Local l => Browser.heap (browser w) !! l
  | Remote _ (Js.VObj ms) => Some (Js.plain ms)
  | Remote _ (Js.VArr xs) => Some (Js.Cell (Some xs) [])
  | Remote _ _ => None
  end.

(** The event gets recorded: the channel is open for a local one, the
    listener is attached for a remote one. *)
Definition recordable (w : World) (s : source) : bool :=
  match s with
  | Local _ => channel_open w
  | Remote d _ =>
      default false (Browser.listening <$> Browser.channels (browser w) !! d)
  end.

Definition is_local (s : source) : bool :=
  match s with Local _ => true | Remote _ _ => false end.

(** The history entry the event becomes. *)
Definition entry (w : World) (s : source) : arg :=
  match s with
  | Local l => Ref l
  | Remote _ _ => Ref (length (Browser.heap (browser w)))
  end.

Definition stamped_message : Js.cell :=
  Js.plain [("type", Js.VStr "response.create");
            ("timestamp", Js.VStr "9:00:00 AM")].

Definition bare_message : Js.cell :=
  Js.plain [("type", Js.VStr "response.create")].

Definition session_created : Js.value :=
  Js.VObj [("type", Js.VStr "session.created")].


(** An active session in which the caller has built the message
    [{ type: "response.create" }]; it is object 0. *)
Definition ready_world : World := after (allocate bare_message) active_world.

(** The same with a message that already carries a [timestamp]. *)
Definition ready_stamped_world : World :=
  after (allocate stamped_message) active_world.

(** Two messages built by the caller with the same [event_id]. *)
Definition twin_message : Js.cell :=
  Js.plain [("type", Js.VStr "response.create"); ("event_id", Js.VStr "evt_1")].

Definition twins_world : World :=
  after (allocate twin_message) (after (allocate twin_message) active_world).


(** The ways in which [startSession] fails. *)
Inductive failure : Type :=
| BadCredential      (* stopped by the checks at its head: no key, or a key
                        not yet marked valid that the probe does not accept *)
| NoMicrophone       (* [getUserMedia] rejects *)
| HandshakeRefused   (* the negotiation endpoint answers without success *)
| OtherFailure.      (* any other step throws *)

(** How a start ends: [None] when every step succeeds. *)
Definition failure_of (w : World) (env : StartEnv) : option failure :=
  if negb (credential_accepted w env) then Some BadCredential
  else
    match microphone env with
    | Rejected _ => Some NoMicrophone
    | Fulfilled 0 => Some OtherFailure
    | Fulfilled (S _) =>
        match offer env, localCommit env, negotiation env with
        | Fulfilled _, Fulfilled _, Fulfilled r =>
            if ok r then
              match text r, remoteCommit env with
              | Fulfilled _, Fulfilled _ => None
              | _, _ => Some OtherFailure
              end
            else Some HandshakeRefused
        | _, _, _ => Some OtherFailure
        end
    end.

(** What the alert says about a negotiation response without success: the
    body of the response if it can be read, the reason why not otherwise. *)
Definition handshake_report (r : Response) : string :=
  "Failed to start session: " +:+
  match text r with
  | Fulfilled body => "API request failed: " +:+ body
  | Rejected reason => reason
  end.


(* ===================================================================== *)
(** ** SessionControls.jsx: the text input of an active session *)
(* ===================================================================== *)

Module SessionActive.

(** The code units that [String.prototype.trim] strips, among those a
    [string] here can hold (code units below 256): TAB, LF, VT, FF, CR,
    SP and NBSP. *)
Definition is_whitespace (c : ascii) : bool :=
  let n := nat_of_ascii c in
  Nat.eqb n 9 || Nat.eqb n 10 || Nat.eqb n 11 || Nat.eqb n 12 ||
  Nat.eqb n 13 || Nat.eqb n 32 || Nat.eqb n 160.

Fixpoint trimStart (s : string) : string :=
  match s with
  | EmptyString => EmptyString
  | String c r => if is_whitespace c then trimStart r else s
  end.

Fixpoint trimEnd (s : string) : string :=
  match s with
  | EmptyString => EmptyString
  | String c r =>
      match trimEnd r with
      | EmptyString => if is_whitespace c then EmptyString else String c EmptyString
      | r' => String c r'
      end
  end.

(** [message.trim()] *)
Definition trim (s : string) : string := trimEnd (trimStart s).

Fixpoint blank (s : string) : bool :=
  match s with
  | EmptyString => true
  | String c r => is_whitespace c && blank r
  end.

(** [handleSendClientEvent]: [sendTextMessage(message); setMessage("")].
    The result is the new content of the input. *)
Definition handleSendClientEvent (amb1 amb2 : Ambient) (message : string)
  : Run string :=
  sendTextMessage amb1 amb2 message ;;
  ret "".

(** The [onClick] of the send button. *)
Definition send_clicked (amb1 amb2 : Ambient) (message : string) : Run string :=
  if Js.truthy (Js.VStr (trim message))
  then handleSendClientEvent amb1 amb2 message
  else ret message.

(** The [onKeyDown] of the input, for the key named [key]. *)
Definition key_pressed (amb1 amb2 : Ambient) (key message : string) : Run string :=
  if String.eqb key "Enter" && Js.truthy (Js.VStr (trim message))
  then handleSendClientEvent amb1 amb2 message
  else ret message.

End SessionActive.

(* ===================================================================== *)
(** ** Runs of the application *)
(* ===================================================================== *)

(** What can happen to the mounted application: a caller of
    [sendClientEvent] builds a message object, the user acts on a control,
    or the browser delivers a signal of a data channel. *)
Inductive action : Type :=
| Build (c : Js.cell)
| Start (env : StartEnv)
| Stop
| Send (amb : Ambient) (message : arg)
| SendText (amb1 amb2 : Ambient) (message : string)
| Message (amb : Ambient) (d : nat) (parsed : option Js.value)
| Opened (d : nat)
| Validate (probe : settled Response)
| SaveKey (value : string).

Definition perform (a : action) : Run unit :=
  match a with
  | Build c => allocate c ;; ret tt
  | Start env => startSession env
  | Stop => stopSession
  | Send amb message => sendClientEvent amb message
  | SendText amb1 amb2 message => sendTextMessage amb1 amb2 message
  | Message amb d parsed => on_message amb d parsed
  | Opened d => on_open d
  | Validate probe =>
      let* key := read (fun w => apiKey (component w)) in
      validateApiKey key probe ;; ret tt
  | SaveKey value => setApiKey value
  end.

(** The world after a sequence of actions; an action that throws leaves
    the world as it was when it threw. *)
Fixpoint run_actions (l : list action) (w : World) : World :=
  match l with
  | [] => w
  | a :: r => run_actions r (after (perform a) w)
  end.

(** The application after its first render. *)
Definition mounted (storage : gmap string string) (probe : settled Response) : World :=
  after (mount probe) (initial storage).

(** A call keeps a property of the world, whether it returns or throws. *)
Definition preserves {A} (I : World -> Prop) (m : Run A) : Prop :=
  forall w, I w -> I (after m w).

(** Every entry of the history is an object of the heap that carries a
    display timestamp. *)
Definition history_stamped (w : World) : Prop :=
  forall x, In x (events (component w)) ->
    exists c, object_of w x = Some c /\
              Js.truthy (Js.get "timestamp" (Js.fields c)) = true.

(** The handles refer to objects in use: the retained channel has the
    component's listeners attached, the retained connection is open, has the
    ontrack handler and both descriptions committed. *)
Definition handles_live (w : World) : Prop :=
  (forall d, dataChannel (component w) = Some d ->
     exists ch, Browser.channels (browser w) !! d = Some ch /\
                Browser.listening ch = true /\
                Browser.label ch = "oai-events") /\
  (forall p, peerConnection (component w) = Some p ->
     exists pc, Browser.connections (browser w) !! p = Some pc /\
                Browser.closed pc = false /\
                Browser.ontrack pc = true /\
                is_Some (Browser.localDescription pc) /\
                is_Some (Browser.remoteDescription pc)).

(** The world after a [startSession] in which every step succeeded: [n+1]
    tracks in the microphone stream, [sdp] the offer, [answer] the body of
    the provider's response. *)
Definition started (w : World) (n : nat) (sdp answer : string) : World :=
  let b := browser w in
  {| component :=
       {| isSessionActive := isSessionActive (component w);
          events := events (component w);
          dataChannel := Some (length (Browser.channels b));
          apiKey := apiKey (component w);
          isKeyValid := true;
          peerConnection := Some (length (Browser.connections b));
          audioElement := Some true |};
     browser :=
       {| Browser.heap := Browser.heap b;
          Browser.tracks :=
            (Browser.tracks b ++ replicate (S n) {| Browser.live := true |})%list;
          Browser.channels :=
            (Browser.channels b ++
               [{| Browser.connection := length (Browser.connections b);
                   Browser.label := "oai-events";
                   Browser.readyState := Browser.Connecting;
                   Browser.sent := []; Browser.listening := true |}])%list;
          Browser.connections :=
            (Browser.connections b ++
               [{| Browser.closed := false;
                   Browser.senders := [Some (length (Browser.tracks b))];
                   Browser.ontrack := true;
                   Browser.localDescription := Some sdp;
                   Browser.remoteDescription := Some answer |}])%list;
          Browser.localStorage := Browser.localStorage b;
          Browser.alerts := Browser.alerts b;
          Browser.console := Browser.console b |} |}.

(** Every step of [startSession] after the credential checks succeeds. *)
Definition goes_through (env : StartEnv) (n : nat) (sdp answer : string) : Prop :=
  microphone env = Fulfilled (S n) /\
  offer env = Fulfilled sdp /\
  localCommit env = Fulfilled tt /\
  negotiation env = Fulfilled {| ok := true; text := Fulfilled answer |} /\
  remoteCommit env = Fulfilled tt.


(** [response.ok] of the probe, [false] when the request itself failed. *)
Definition probe_ok (probe : settled Response) : bool :=
  match probe with
  | Fulfilled r => ok r
  | Rejected _ => false
  end.


(** The component's listeners are attached to channel [d]. *)
Definition attached (w : World) (d : nat) : bool :=
  default false (Browser.listening <$> Browser.channels (browser w) !! d).

(** The [response.create] request that [sendTextMessage] sends after the
    user's message. *)
Definition response_create : Js.cell :=
  Js.plain [("type", Js.VStr "response.create")].


(** Between two worlds, what sending, receiving and validating never
    change: the credential and its stored copy, the two handles, the
    connections, and for every channel its listeners and its label. *)
Definition steady (w w' : World) : Prop :=
  apiKey (component w') = apiKey (component w) /\
  Browser.localStorage (browser w') = Browser.localStorage (browser w) /\
  dataChannel (component w') = dataChannel (component w) /\
  peerConnection (component w') = peerConnection (component w) /\
  Browser.connections (browser w') = Browser.connections (browser w) /\
  (forall d ch, Browser.channels (browser w) !! d = Some ch ->
     exists ch', Browser.channels (browser w') !! d = Some ch' /\
                 Browser.listening ch' = Browser.listening ch /\
                 Browser.label ch' = Browser.label ch).


(** The number 7. *)
Definition seven : Js.number := {| Js.falsy := false; Js.json := "7" |}.


(* ===================================================================== *)
(** ** Properties *)
(* ===================================================================== *)

Ltac run :=
  cbv beta delta [bind ret throw read update_app update_browser try_catch
                  after threw await] in *; cbn [fst snd] in *.

Create Rewrite HintDb props.

(** *** Property access *)

Lemma get_set_same k v ps : Js.get k (Js.set k v ps) = v.
Proof.
  induction ps as [|[k' v'] r IH]; cbn.
  - now rewrite String.eqb_refl.
  - destruct (String.eqb k k') eqn:E; cbn; now rewrite E.
Qed.

Lemma get_set_other k k' v ps : k' <> k -> Js.get k' (Js.set k v ps) = Js.get k' ps.
Proof.
  intros Hne. induction ps as [|[k0 v0] r IH]; cbn.
  - destruct (String.eqb k' k) eqn:E; [apply String.eqb_eq in E; congruence | reflexivity].
  - destruct (String.eqb k k0) eqn:E; cbn.
    + apply String.eqb_eq in E; subst k0.
      destruct (String.eqb k' k) eqn:E'; [apply String.eqb_eq in E'; congruence | reflexivity].
    + now rewrite IH.
Qed.

#[export] Hint Rewrite get_set_same : props.
#[export] Hint Rewrite get_set_other using congruence : props.

(** *** sendClientEvent with no open channel *)

Lemma channel_state_closed w :
  channel_open w = false ->
  match dataChannel (component w),
        (channel_state (dataChannel (component w)) w).1 with
  | Some _, Return (Some Browser.Open) => False
  | _, _ => True
  end.
Proof.
  unfold channel_open, channel_state. destruct (dataChannel (component w)) as [d|]; [|easy].
  run. destruct (Browser.channels (browser w) !! d) as [ch|]; cbn; [|easy].
  destruct (Browser.readyState ch); cbn; easy.
Qed.

(** C8.  Whatever the message, [sendClientEvent] called while the channel
    is absent or not open returns normally, hands no frame to any channel,
    leaves the history, the component state and every heap object as they
    were, and reports the failure with one [console.error] call that carries
    the message. *)
Theorem sendClientEvent_without_open_channel amb message w :
  channel_open w = false ->
  let w' := after (sendClientEvent amb message) w in
  threw (sendClientEvent amb message) w = false /\
  Browser.channels (browser w') = Browser.channels (browser w) /\
  events (component w') = events (component w) /\
  component w' = component w /\
  Browser.heap (browser w') = Browser.heap (browser w) /\
  exists note,
    Browser.console (browser w') =
    (Browser.console (browser w) ++
      [[Browser.LText "Failed to send message - data channel not available or not open";
        log_of message; Browser.LText note]])%list.
Proof.
  intros Hclosed. pose proof (channel_state_closed w Hclosed) as H.
  unfold sendClientEvent, console_error. unfold channel_state in *. run.
  destruct (dataChannel (component w)) as [d|]; cbn in *.
  - destruct (Browser.channels (browser w) !! d) as [ch|]; cbn in *.
    + destruct (Browser.readyState ch); cbn in *; try contradiction;
        repeat split; eauto.
    + repeat split; eauto.
  - repeat split; eauto.
Qed.

Lemma sendClientEvent_without_open_channel_witness :
  channel_open validated_world = false /\
  threw (sendClientEvent sample_ambient (Prim Js.VNull)) validated_world = false.
Proof.
  split; [reflexivity |].
  apply (sendClientEvent_without_open_channel sample_ambient (Prim Js.VNull)
           validated_world).
  reflexivity.
Defined.

(** *** The credential store *)

Lemma truthy_text s : Js.truthy (Js.VStr s) = true <-> s <> "".
Proof.
  cbn. destruct (String.eqb s "") eqn:E; cbn.
  - apply String.eqb_eq in E. split; [discriminate | congruence].
  - apply String.eqb_neq in E. tauto.
Qed.

Lemma truthy_text1 t : Js.truthy (Js.VStr (Js.text t)) = true.
Proof. reflexivity. Qed.

Lemma setApiKey_run value w :
  setApiKey value w =
  (Return tt,
   {| component :=
        {| isSessionActive := isSessionActive (component w);
           events := events (component w);
           dataChannel := dataChannel (component w);
           apiKey := value;
           isKeyValid := isKeyValid (component w);
           peerConnection := peerConnection (component w);
           audioElement := audioElement (component w) |};
      browser :=
        if String.eqb (apiKey (component w)) value then browser w
        else if Js.truthy (Js.VStr value)
             then Browser.with_localStorage
                    (<[storage_key := value]> (Browser.localStorage (browser w)))
                    (browser w)
             else browser w |}).
Proof.
  unfold setApiKey, persist_apiKey, store_apiKey. run.
  destruct (String.eqb (apiKey (component w)) value); cbn; [reflexivity |].
  destruct (negb (String.eqb value "")); reflexivity.
Qed.

Lemma setCredential_unfold value : setCredential value = setApiKey value.
Proof. reflexivity. Qed.

Lemma persisted_initial storage probe :
  persisted (after (mount probe) (initial storage)).
Proof.
  unfold persisted, mount, persist_apiKey, wire_dataChannel, validateApiKey,
    setIsKeyValid, console_error, initial. run. cbn.
  destruct (storage !! storage_key) as [k|] eqn:Hk; cbn.
  - destruct (String.eqb k "") eqn:E; cbn; rewrite ?E; cbn.
    + apply String.eqb_eq in E. subst. cbn. intros H. now destruct H.
    + destruct probe as [r|e]; cbn; intros _; apply lookup_insert_eq.
  - intros H. now destruct H.
Qed.

(** C6, as the code has it.  Saving a credential stores it as the current
    one and, when it is not empty, writes it to local storage, from where
    the next application start loads it; saving the empty string leaves
    local storage as it was. *)
Theorem setCredential_stores_and_persists w value :
  persisted w ->
  let w' := after (setCredential value) w in
  apiKey (component w') = value /\
  (value <> "" ->
   Browser.localStorage (browser w') !! storage_key = Some value /\
   apiKey (component (initial (Browser.localStorage (browser w')))) = value) /\
  (value = "" ->
   Browser.localStorage (browser w') = Browser.localStorage (browser w)) /\
  persisted w'.
Proof.
  intros Hp w'. subst w'. rewrite setCredential_unfold.
  unfold after. rewrite setApiKey_run. cbn [snd component browser apiKey].
  set (b' := if String.eqb (apiKey (component w)) value then browser w else _).
  assert (Hstored : value <> "" ->
            Browser.localStorage b' !! storage_key = Some value).
  { intros Hne. subst b'.
    destruct (String.eqb (apiKey (component w)) value) eqn:E.
    - apply String.eqb_eq in E. subst value. now apply Hp.
    - apply truthy_text in Hne. rewrite Hne. cbn. apply lookup_insert_eq. }
  split; [reflexivity |]. split; [| split].
  - intros Hne. split; [now apply Hstored |].
    unfold initial. cbn [component apiKey]. now rewrite (Hstored Hne).
  - intros ->. subst b'.
    destruct (String.eqb (apiKey (component w)) ""); reflexivity.
  - unfold persisted. cbn [component browser apiKey]. exact Hstored.
Qed.

Lemma setCredential_stores_and_persists_witness :
  persisted validated_world /\
  let w' := after (setCredential "sk-new") validated_world in
  apiKey (component w') = "sk-new" /\
  Browser.localStorage (browser w') !! storage_key = Some "sk-new".
Proof.
  assert (Hp : persisted validated_world) by (intros _; reflexivity).
  split; [exact Hp |].
  pose proof (setCredential_stores_and_persists validated_world "sk-new" Hp)
    as (Hkey & Hstore & _).
  split; [exact Hkey |]. apply Hstore. discriminate.
Defined.

(** C6 as the specification words it fails: replacing the validated
    ["sk-old"] by ["sk-new"] leaves the validity flag raised, so the start
    button stays enabled and [startSession] goes on to open a transport
    without asking the provider, who would have refused the key; and saving
    the empty string leaves ["sk-old"] in local storage. *)
Lemma setCredential_keeps_validity_flag :
  let w' := after (setCredential "sk-new") validated_world in
  isKeyValid (component validated_world) = true /\
  apiKey (component w') = "sk-new" /\
  isKeyValid (component w') = true /\
  SessionControls.start_enabled w' = true /\
  length (Browser.connections (browser (after (startSession probe_refuses) w'))) = 1 /\
  Browser.console (browser (after (startSession probe_refuses) w')) =
    [[Browser.LText "Error starting session:";
      Browser.LText "API request failed: Incorrect API key provided"]] /\
  Browser.localStorage (browser (after (setCredential "") validated_world))
    !! storage_key = Some "sk-old".
Proof. vm_compute. repeat split; reflexivity. Qed.

(** C10.  Saving the empty string does not touch local storage: a
    credential stored before is still there and is what the next
    application start loads; and whenever saving a value changes local
    storage, that value is not empty. *)
Theorem empty_credential_keeps_persisted_copy w k :
  Browser.localStorage (browser w) !! storage_key = Some k ->
  let w' := after (setCredential "") w in
  Browser.localStorage (browser w') = Browser.localStorage (browser w) /\
  Browser.localStorage (browser w') !! storage_key = Some k /\
  apiKey (component (initial (Browser.localStorage (browser w')))) = k /\
  forall value,
    Browser.localStorage (browser (after (setCredential value) w)) <>
    Browser.localStorage (browser w) -> value <> "".
Proof.
  intros Hk w'. subst w'. rewrite setCredential_unfold. unfold after.
  rewrite setApiKey_run. cbn [snd browser].
  assert (Hsame :
    Browser.localStorage
      (if String.eqb (apiKey (component w)) "" then browser w
       else if Js.truthy (Js.VStr "") then
              Browser.with_localStorage
                (<[storage_key := ""]> (Browser.localStorage (browser w)))
                (browser w)
            else browser w) = Browser.localStorage (browser w)).
  { destruct (String.eqb (apiKey (component w)) ""); reflexivity. }
  rewrite Hsame. split; [reflexivity |]. split; [exact Hk |]. split.
  - unfold initial. cbn. now rewrite Hk.
  - intros value Hchg ->. apply Hchg. rewrite setCredential_unfold.
    rewrite setApiKey_run. cbn [snd browser].
    exact Hsame.
Qed.

Lemma empty_credential_keeps_persisted_copy_witness :
  Browser.localStorage (browser validated_world) !! storage_key = Some "sk-old" /\
  Browser.localStorage (browser (after (setCredential "") validated_world))
    !! storage_key = Some "sk-old".
Proof.
  split; [reflexivity |].
  apply (empty_credential_keeps_persisted_copy validated_world "sk-old").
  reflexivity.
Defined.

(** *** The token relay *)

(** C7 as the specification words it fails: the secret is configured and
    the provider answers 401 with an error body of its own; the relay does
    not look at the status and passes that body on with status 200. *)
Lemma token_passes_provider_errors :
  unconfigured (Some "sk-server") = false /\
  upstream_failed unauthorized = true /\
  Server.token (Some "sk-server") unauthorized =
    ({| Server.status := 200; Server.body := provider_error |}, []) /\
  Server.status (Server.token (Some "sk-server") unauthorized).1 <> 500 /\
  forall message,
    Server.body (Server.token (Some "sk-server") unauthorized).1 <>
    Server.error_body message.
Proof.
  repeat split; try reflexivity; try discriminate.
Qed.

(** C7, as the code has it.  The relay answers 500 with the body
    [{ error: { message, type: "server_error" } }] exactly when the secret
    is not configured or the upstream call throws ([fetch] rejects, or the
    body of the response is not JSON); in every other case, whatever the
    status of the provider's response, it answers 200 with the parsed body
    of that response, unchanged. *)
Theorem token_replies secret upstream :
  let reply := (Server.token secret upstream).1 in
  if unconfigured secret || upstream_threw upstream then
    Server.status reply = 500 /\
    exists message,
      Server.body reply = Server.error_body message /\ message <> ""
  else
    exists response data,
      upstream = Fulfilled response /\
      Server.json response = Fulfilled data /\
      Server.status reply = 200 /\
      Server.body reply = data.
Proof.
  unfold unconfigured, upstream_threw, Server.token.
  destruct (Js.truthy (Server.env_value secret)); cbn [negb orb].
  - destruct upstream as [response | error]; cbn.
    + destruct (Server.json response) as [data | error] eqn:Hj; cbn.
      * now exists response, data.
      * split; [reflexivity |].
        destruct (String.eqb error "") eqn:E; cbn; eexists; split;
          try reflexivity; [discriminate | now apply String.eqb_neq].
    + split; [reflexivity |].
      destruct (String.eqb error "") eqn:E; cbn; eexists; split;
        try reflexivity; [discriminate | now apply String.eqb_neq].
  - cbn. split; [reflexivity |]. eexists; split; [reflexivity | discriminate].
Qed.

(** *** stopSession *)

Lemma forEach_stop_tracks ss w :
  forEach ss (fun sender =>
                match sender with
                | Some tr => update_track tr Browser.stop_track
                | None => ret tt
                end) w =
  (Return tt,
   {| component := component w;
      browser := Browser.with_tracks
                   (release_tracks ss (Browser.tracks (browser w))) (browser w) |}).
Proof.
  revert w. induction ss as [|[tr|] ss IH]; intros [c b].
  - destruct b; reflexivity.
  - cbn [forEach]. unfold bind at 1. unfold update_track at 1.
    unfold update_browser at 1. cbn [component browser]. rewrite IH.
    destruct b; reflexivity.
  - cbn [forEach]. unfold bind at 1, ret at 1. rewrite IH. reflexivity.
Qed.

Lemma stopSession_run w : stopSession w = (Return tt, stopped w).
Proof.
  destruct w as [c b]. unfold stopSession, stopped, retained_senders, getSenders,
    setDataChannel, wire_dataChannel, store_dataChannel, set_peerConnection,
    setIsSessionActive, update_connection, update_channel.
  destruct c as [active evs dc key valid pc audio].
  destruct b as [hp ts chs cns st al co].
  destruct dc as [d|], pc as [p|]; run; cbn;
    try rewrite forEach_stop_tracks; reflexivity.
Qed.






Lemma close_connection_tracks p b :
  Browser.tracks (Browser.close_RTCPeerConnection p b) = Browser.tracks b.
Proof.
  unfold Browser.close_RTCPeerConnection.
  destruct (Browser.connections b !! p) as [pc|]; [| reflexivity].
  now destruct (Browser.closed pc).
Qed.

Lemma close_connection_channel p b d ch :
  Browser.channels b !! d = Some ch ->
  Browser.channels (Browser.close_RTCPeerConnection p b) !! d = Some ch \/
  Browser.channels (Browser.close_RTCPeerConnection p b) !! d =
    Some (Browser.closed_by p ch).
Proof.
  intros Hch. unfold Browser.close_RTCPeerConnection.
  destruct (Browser.connections b !! p) as [pc|]; [| now left].
  destruct (Browser.closed pc); [now left |].
  right. cbn. now rewrite list_lookup_fmap, Hch.
Qed.






(** *** startSession *)

Ltac unfold_start :=
  unfold startSession, validateApiKey, new_RTCPeerConnection, getUserMedia,
    addTrack, createDataChannel, setDataChannel, wire_dataChannel,
    store_dataChannel, set_peerConnection, set_audioElement, setIsKeyValid,
    update_connection, update_channel, alert, console_error.

Lemma alter_new {A} (f : A -> A) (l : list A) (x : A) :
  alter f (length l) (l ++ [x])%list = (l ++ [f x])%list.
Proof. induction l as [|a l IH]; cbn; [reflexivity | now f_equal]. Qed.

Lemma lookup_new {A} (l r : list A) (x : A) :
  (l ++ x :: r)%list !! length l = Some x.
Proof. induction l as [|a l IH]; cbn; [reflexivity | exact IH]. Qed.

(** C2 as the specification words it fails: with a valid credential and
    the microphone denied, [startSession] has already created a transport
    connection when it asks for the microphone; that connection is there,
    open, after the call. *)
Lemma transport_precedes_microphone :
  let w' := after (startSession microphone_denied) validated_world in
  Browser.connections (browser validated_world) = [] /\
  Browser.connections (browser w') =
    [Browser.set_ontrack Browser.new_connection] /\
  Browser.alerts (browser w') = ["Failed to start session: Permission denied"].
Proof. vm_compute. repeat split; reflexivity. Qed.

(** C2, as the code has it.  [startSession] creates the transport
    connection first and asks for the microphone next.  In every run in
    which the microphone is refused the call returns normally, no event
    channel and no track is ever created, and the channel handle, the
    transport reference and the active flag stay as they were; when the
    credential checks pass, exactly one connection was created before the
    refusal, and the refusal is reported in an alert. *)
Theorem microphone_denial w env reason :
  microphone env = Rejected reason ->
  let w' := after (startSession env) w in
  threw (startSession env) w = false /\
  Browser.channels (browser w') = Browser.channels (browser w) /\
  Browser.tracks (browser w') = Browser.tracks (browser w) /\
  dataChannel (component w') = dataChannel (component w) /\
  peerConnection (component w') = peerConnection (component w) /\
  isSessionActive (component w') = isSessionActive (component w) /\
  if credential_accepted w env then
    Browser.connections (browser w') =
      (Browser.connections (browser w) ++
         [Browser.set_ontrack Browser.new_connection])%list /\
    Browser.alerts (browser w') =
      (Browser.alerts (browser w) ++ ["Failed to start session: " +:+ reason])%list
  else
    Browser.connections (browser w') = Browser.connections (browser w).
Proof.
  intros Hmic. destruct env as [pr mic off lc neg rc]. cbn in Hmic. subst mic.
  destruct w as [[active evs dc key valid pc audio] [hp ts chs cns st al co]].
  unfold credential_accepted. unfold_start. run. cbn.
  destruct (String.eqb key "") eqn:Hkey; cbn; [now repeat split |].
  destruct valid; cbn.
  - repeat split; try reflexivity. apply alter_new.
  - destruct pr as [[good body] | err]; cbn; [destruct good; cbn |];
      try (now repeat split).
    repeat split; try reflexivity. apply alter_new.
Qed.

Lemma microphone_denial_witness :
  microphone microphone_denied = Rejected "Permission denied" /\
  Browser.channels (browser (after (startSession microphone_denied) validated_world))
    = Browser.channels (browser validated_world).
Proof.
  split; [reflexivity |].
  apply (microphone_denial validated_world microphone_denied "Permission denied").
  reflexivity.
Defined.

(** Whenever the negotiation endpoint answers with a non-success status,
    after every earlier step went through: the new channel has become the
    retained channel handle, the new connection is open and not referenced by
    the component, and the microphone track it sends is live. *)
Lemma refused_handshake w env n sdp body :
  credential_accepted w env = true ->
  microphone env = Fulfilled (S n) ->
  offer env = Fulfilled sdp ->
  localCommit env = Fulfilled tt ->
  negotiation env = Fulfilled {| ok := false; text := Fulfilled body |} ->
  let w' := after (startSession env) w in
  dataChannel (component w') = Some (length (Browser.channels (browser w))) /\
  peerConnection (component w') = peerConnection (component w) /\
  Browser.connections (browser w') !! length (Browser.connections (browser w)) =
    Some {| Browser.closed := false;
            Browser.senders := [Some (length (Browser.tracks (browser w)))];
            Browser.ontrack := true;
            Browser.localDescription := Some sdp;
            Browser.remoteDescription := None |} /\
  Browser.tracks (browser w') !! length (Browser.tracks (browser w)) =
    Some {| Browser.live := true |} /\
  Browser.alerts (browser w') =
    (Browser.alerts (browser w) ++
       ["Failed to start session: API request failed: " +:+ body])%list.
Proof.
  intros Hcred Hmic Hoff Hlc Hneg.
  destruct env as [pr mic off lc neg rc]. cbn in Hmic, Hoff, Hlc, Hneg. subst.
  destruct w as [[active evs dc key valid pc audio] [hp ts chs cns st al co]].
  unfold credential_accepted in Hcred. cbn in Hcred.
  apply andb_true_iff in Hcred as [Hkey Hok]. revert Hkey Hok.
  unfold_start. run. cbn. intros Hkey Hok. rewrite Hkey. cbn.
  destruct valid; cbn in *.
  - rewrite !alter_new. cbn. rewrite !lookup_new. cbn. rewrite !alter_new. cbn.
    rewrite !lookup_new. repeat split; reflexivity.
  - destruct pr as [[good txt] | err]; cbn in *; [| discriminate].
    subst good. cbn. rewrite !alter_new. cbn. rewrite !lookup_new. cbn.
    rewrite !alter_new. cbn. rewrite !lookup_new. repeat split; reflexivity.
Qed.

(** C1 as the specification words it fails: a valid credential, the
    microphone granted, and the negotiation endpoint answering 403 with body
    [forbidden].  [startSession] reports the failure, but the channel it
    created stays
    in the channel handle, the connection it created stays open and the
    microphone track stays live; since the connection was never stored in
    the transport reference, a following [stopSession] closes neither the
    connection nor the track. *)
Lemma failed_handshake_keeps_resources :
  let w' := after (startSession forbidden) validated_world in
  idle (component validated_world) /\
  threw (startSession forbidden) validated_world = false /\
  Browser.alerts (browser w') =
    ["Failed to start session: API request failed: forbidden"] /\
  isSessionActive (component w') = false /\
  dataChannel (component w') = Some 0 /\
  peerConnection (component w') = None /\
  Browser.channels (browser w') =
    [{| Browser.connection := 0; Browser.label := "oai-events";
        Browser.readyState := Browser.Connecting;
        Browser.sent := []; Browser.listening := true |}] /\
  Browser.connections (browser w') =
    [{| Browser.closed := false; Browser.senders := [Some 0];
        Browser.ontrack := true; Browser.localDescription := Some "v=0";
        Browser.remoteDescription := None |}] /\
  Browser.tracks (browser w') = [{| Browser.live := true |}] /\
  Browser.closed <$> Browser.connections (browser (after stopSession w')) = [false] /\
  Browser.tracks (browser (after stopSession w')) = [{| Browser.live := true |}].
Proof. vm_compute. repeat split; reflexivity. Qed.

(** C1, as the code has it.  Whichever way [startSession] fails, the call
    returns normally, the failure is reported in one alert, and the active
    flag and the transport reference are as they were, so that a session
    that was idle is not active and has no transport reference.  When the
    checks at its head stop it (no key, or a key not yet marked valid that
    the probe does not accept) no transport, channel or track has been
    created and the channel handle is as it was; when the microphone is
    refused no channel and no track has been created and the channel handle
    is as it was; when the negotiation endpoint answers without success,
    whether or not the body of its answer can be read, the alert carries
    that body or the reason why it could not be read. *)
Theorem start_failure_outcome w env f :
  failure_of w env = Some f ->
  let w' := after (startSession env) w in
  threw (startSession env) w = false /\
  isSessionActive (component w') = isSessionActive (component w) /\
  peerConnection (component w') = peerConnection (component w) /\
  match f with
  | BadCredential =>
      Browser.alerts (browser w') =
        (Browser.alerts (browser w) ++
           [if Js.truthy (Js.VStr (apiKey (component w)))
            then "Invalid API key. Please check and try again."
            else "Please enter your OpenAI API key"])%list /\
      dataChannel (component w') = dataChannel (component w) /\
      Browser.connections (browser w') = Browser.connections (browser w) /\
      Browser.channels (browser w') = Browser.channels (browser w) /\
      Browser.tracks (browser w') = Browser.tracks (browser w)
  | NoMicrophone =>
      (exists reason,
         microphone env = Rejected reason /\
         Browser.alerts (browser w') =
           (Browser.alerts (browser w) ++
              ["Failed to start session: " +:+ reason])%list) /\
      dataChannel (component w') = dataChannel (component w) /\
      Browser.channels (browser w') = Browser.channels (browser w) /\
      Browser.tracks (browser w') = Browser.tracks (browser w)
  | HandshakeRefused =>
      exists r,
        negotiation env = Fulfilled r /\ ok r = false /\
        Browser.alerts (browser w') =
          (Browser.alerts (browser w) ++ [handshake_report r])%list
  | OtherFailure =>
      exists report,
        Browser.alerts (browser w') = (Browser.alerts (browser w) ++ [report])%list
  end.
Proof.
  destruct env as [pr mic off lc neg rc].
  destruct w as [[active evs dc key valid pc audio] [hp ts chs cns st al co]].
  unfold failure_of, credential_accepted, handshake_report.
  cbn [probe microphone offer localCommit negotiation remoteCommit
       component browser apiKey isKeyValid].
  unfold_start. run. cbn.
  destruct (String.eqb key "") eqn:Hkey; cbn.
  { intros [= <-]. repeat split; eauto. }
  destruct mic as [[|n] | why], off as [sdp | e1], lc as [[] | e2],
    neg as [[[] [body | e3]] | e4], rc as [[] | e5];
    (destruct valid; cbn;
     [ | destruct pr as [[[] txt] | err]; cbn ]);
    repeat first [ rewrite alter_new | rewrite lookup_new | progress cbn ];
    intros Hf; try discriminate Hf; injection Hf as <-;
    repeat split; eauto;
    try (eexists; repeat split; reflexivity).
Qed.

Lemma start_failure_outcome_witness :
  failure_of validated_world forbidden = Some HandshakeRefused /\
  isSessionActive (component (after (startSession forbidden) validated_world)) = false /\
  peerConnection (component (after (startSession forbidden) validated_world)) = None.
Proof.
  split; [reflexivity |].
  destruct (start_failure_outcome validated_world forbidden HandshakeRefused eq_refl)
    as (_ & Hactive & Hpc & _).
  split; [exact Hactive | exact Hpc].
Defined.

(** A start that does not fail in any of these ways is one in which every
    step succeeded. *)
Lemma failure_of_none w env :
  failure_of w env = None ->
  exists n sdp answer,
    credential_accepted w env = true /\ goes_through env n sdp answer.
Proof.
  unfold failure_of, goes_through.
  destruct env as [pr mic off lc neg rc].
  cbn [microphone offer localCommit negotiation remoteCommit].
  destruct (credential_accepted _ _); [cbn | discriminate].
  destruct mic as [[|n] | why]; try discriminate.
  destruct off as [sdp | e1]; try discriminate.
  destruct lc as [[] | e2]; try discriminate.
  destruct neg as [[[] [body | e3]] | e4]; try discriminate.
  destruct rc as [[] | e5]; try discriminate.
  intros _. exists n, sdp, body. repeat split; reflexivity.
Qed.

(** *** The event history *)

Lemma sendClientEvent_open amb l c d ch w :
  dataChannel (component w) = Some d ->
  Browser.channels (browser w) !! d = Some ch ->
  Browser.readyState ch = Browser.Open ->
  Browser.heap (browser w) !! l = Some c ->
  let w' := after (sendClientEvent amb (Ref l)) w in
  threw (sendClientEvent amb (Ref l)) w = false /\
  events (component w') = Ref l :: events (component w) /\
  Browser.heap (browser w') !! l = Some (dated amb (identified amb c)) /\
  (forall l', l' <> l ->
     Browser.heap (browser w') !! l' = Browser.heap (browser w) !! l') /\
  Browser.channels (browser w') !! d =
    Some (Browser.push_frame (Js.stringify (identified amb c)) ch) /\
  (forall d', d' <> d ->
     Browser.channels (browser w') !! d' = Browser.channels (browser w) !! d').
Proof.
  destruct w as [[active evs dc key valid pc audio] [hp ts chs cns st al co]].
  cbn [component browser dataChannel Browser.channels Browser.heap].
  intros -> Hch Hopen Hc.
  unfold sendClientEvent, channel_state, get_property, set_property,
    JSON_stringify, channel_send, update_channel, setEvents. run. cbn.
  repeat first [ rewrite Hch | rewrite Hopen | rewrite Hc
               | rewrite list_lookup_alter_eq | progress cbn ].
  unfold dated, identified, Js.cell_set. cbn [Js.fields Js.elems].
  destruct (Js.truthy (Js.get "timestamp" (Js.set "event_id" _ (Js.fields c))));
    repeat first [ rewrite Hch | rewrite Hopen | rewrite Hc
                 | rewrite list_lookup_alter_eq | progress cbn ];
    repeat split; try reflexivity; intros;
    rewrite ?list_lookup_alter_ne by congruence; reflexivity.
Qed.

Lemma on_message_structured amb d v c w :
  recordable w (Remote d v) = true ->
  original w (Remote d v) = Some c ->
  let w' := after (on_message amb d (Some v)) w in
  threw (on_message amb d (Some v)) w = false /\
  events (component w') =
    Ref (length (Browser.heap (browser w))) :: events (component w) /\
  Browser.heap (browser w') = (Browser.heap (browser w) ++ [dated amb c])%list /\
  Browser.channels (browser w') = Browser.channels (browser w).
Proof.
  destruct w as [[active evs dc key valid pc audio] [hp ts chs cns st al co]].
  cbn [recordable original component browser Browser.channels Browser.heap].
  intros Hon Hc.
  unfold on_message, listening, materialize, allocate, get_property,
    set_property, setEvents. run. cbn. rewrite Hon. cbn.
  destruct v; try discriminate; injection Hc as <-; unfold dated;
    repeat first [ rewrite lookup_new | rewrite alter_new | progress cbn ];
    try match goal with
        | |- context [Js.truthy ?x] => destruct (Js.truthy x)
        end;
    repeat first [ rewrite lookup_new | rewrite alter_new | progress cbn ];
    repeat split; reflexivity.
Qed.

Lemma channel_open_inv w :
  channel_open w = true ->
  exists d ch,
    dataChannel (component w) = Some d /\
    Browser.channels (browser w) !! d = Some ch /\
    Browser.readyState ch = Browser.Open.
Proof.
  unfold channel_open.
  destruct (dataChannel (component w)) as [d|]; [|discriminate].
  destruct (Browser.channels (browser w) !! d) as [ch|] eqn:Hch; [|discriminate].
  intros H. exists d, ch. repeat split; [exact Hch |].
  destruct (Browser.readyState ch); cbn in H; congruence.
Qed.

(** Recording an event, local or remote: the call returns normally, the
    entry goes to the head of the history, the object behind it is the
    original with its identifier (local only) and its timestamp filled in,
    and no other object is touched. *)
Lemma record_spec amb s c w :
  recordable w s = true ->
  original w s = Some c ->
  let w' := after (record amb s) w in
  threw (record amb s) w = false /\
  events (component w') = entry w s :: events (component w) /\
  object_of w' (entry w s) =
    Some (dated amb (if is_local s then identified amb c else c)) /\
  (forall y c0, y <> entry w s -> object_of w y = Some c0 ->
                object_of w' y = Some c0).
Proof.
  intros Hrec Horig. destruct s as [l | d v]; cbn [record entry is_local].
  - cbn in Hrec, Horig. apply channel_open_inv in Hrec as (d & ch & Hd & Hch & Hopen).
    destruct (sendClientEvent_open amb l c d ch w Hd Hch Hopen Horig)
      as (Hthrew & Hev & Hobj & Hframe & _).
    cbn zeta. repeat split; try assumption.
    intros [l' | p] c0 Hne Hy; cbn in *; [| discriminate].
    rewrite Hframe by congruence. exact Hy.
  - destruct (on_message_structured amb d v c w Hrec Horig)
      as (Hthrew & Hev & Hheap & _).
    cbn zeta. repeat split; try assumption.
    + cbn. rewrite Hheap. apply lookup_new.
    + intros [l' | p] c0 Hne Hy; cbn in *; [| discriminate].
      rewrite Hheap. now apply lookup_app_l_Some.
Qed.

Lemma dated_other amb c k :
  k <> "timestamp" -> Js.get k (Js.fields (dated amb c)) = Js.get k (Js.fields c).
Proof.
  intros Hne. unfold dated.
  destruct (Js.truthy (Js.get "timestamp" (Js.fields c))); [reflexivity |].
  cbn. now apply get_set_other.
Qed.

Lemma dated_timestamp amb c :
  Js.truthy (Js.get "timestamp" (Js.fields (dated amb c))) = true.
Proof.
  unfold dated.
  destruct (Js.truthy (Js.get "timestamp" (Js.fields c))) eqn:E; [exact E |].
  cbn [Js.cell_set Js.fields]. now rewrite get_set_same.
Qed.

Lemma dated_kept amb c :
  Js.truthy (Js.get "timestamp" (Js.fields c)) = true -> dated amb c = c.
Proof. intros H. unfold dated. now rewrite H. Qed.

Lemma dated_elems amb c : Js.elems (dated amb c) = Js.elems c.
Proof.
  unfold dated. now destruct (Js.truthy (Js.get "timestamp" (Js.fields c))).
Qed.

Lemma identified_other amb c k :
  k <> "event_id" ->
  Js.get k (Js.fields (identified amb c)) = Js.get k (Js.fields c).
Proof. intros Hne. cbn. now apply get_set_other. Qed.

Lemma identified_id amb c :
  Js.get "event_id" (Js.fields (identified amb c)) =
  (if Js.truthy (Js.get "event_id" (Js.fields c))
   then Js.get "event_id" (Js.fields c)
   else Js.VStr (Js.text (randomUUID amb))).
Proof. cbn. apply get_set_same. Qed.

Lemma set_get_same k ps :
  Js.truthy (Js.get k ps) = true -> Js.set k (Js.get k ps) ps = ps.
Proof.
  induction ps as [|[k' v'] r IH]; cbn; [discriminate |].
  destruct (String.eqb k k') eqn:E; [reflexivity |].
  intros H. now rewrite IH.
Qed.

Lemma identified_kept amb c :
  Js.truthy (Js.get "event_id" (Js.fields c)) = true -> identified amb c = c.
Proof.
  intros H. unfold identified, Js.cell_set. rewrite H.
  rewrite set_get_same by exact H. now destruct c.
Qed.

Lemma wire_keys_has k ps : In k (Js.wire_keys ps) -> Js.has k ps = true.
Proof.
  induction ps as [|[k' v] r IH]; cbn; [easy |].
  destruct (String.eqb k k') eqn:E; [reflexivity |].
  destruct (Js.is_undef v); [exact IH |].
  intros [-> | Hin]; [| now apply IH].
  now rewrite String.eqb_refl in E.
Qed.

Lemma has_set_other k k' v ps :
  k' <> k -> Js.has k' (Js.set k v ps) = Js.has k' ps.
Proof.
  intros Hne. induction ps as [|[k0 v0] r IH]; cbn.
  - destruct (String.eqb k' k) eqn:E; [apply String.eqb_eq in E; congruence | reflexivity].
  - destruct (String.eqb k k0) eqn:E; cbn; [reflexivity | now rewrite IH].
Qed.

(** A message that has no [timestamp] property goes over the wire without
    one, and whatever the message, the entry recorded for it has one. *)
Lemma unstamped_message_payload amb l c w :
  channel_open w = true ->
  Browser.heap (browser w) !! l = Some c ->
  Js.elems c = None ->
  Js.has "timestamp" (Js.fields c) = false ->
  let w' := after (sendClientEvent amb (Ref l)) w in
  exists d,
    dataChannel (component w) = Some d /\
    frames w' d =
      (frames w d ++ [Js.serialize (Js.VObj (Js.fields (identified amb c)))])%list /\
    ~ In "timestamp" (Js.wire_keys (Js.fields (identified amb c))) /\
    exists c', object_of w' (Ref l) = Some c' /\
               Js.truthy (Js.get "timestamp" (Js.fields c')) = true.
Proof.
  intros Hopen Hc Hplain Hno.
  apply channel_open_inv in Hopen as (d & ch & Hd & Hch & Hst).
  destruct (sendClientEvent_open amb l c d ch w Hd Hch Hst Hc)
    as (_ & _ & Hobj & _ & Hsent & _).
  cbn zeta. exists d. split; [exact Hd |]. split; [| split].
  - unfold frames. rewrite Hsent, Hch. cbn. unfold Js.stringify.
    cbn [identified Js.cell_set Js.elems]. now rewrite Hplain.
  - intros Hin. apply wire_keys_has in Hin. cbn in Hin.
    rewrite has_set_other in Hin by discriminate. congruence.
  - eexists. split; [exact Hobj |]. apply dated_timestamp.
Qed.

(** C3, on the code.  A message that already carries a [timestamp] is
    serialized with it: the frame handed to the channel has the member
    [timestamp].  The same happens to a message without one that is sent a
    second time, since the first call left its display timestamp on the
    object. *)
Theorem preset_timestamp_is_transmitted :
  let w' := after (sendClientEvent sample_ambient (Ref 0)) ready_stamped_world in
  let w1 := after (sendClientEvent sample_ambient (Ref 0)) ready_world in
  let w2 := after (sendClientEvent later_ambient (Ref 0)) w1 in
  channel_open ready_stamped_world = true /\
  object_of ready_stamped_world (Ref 0) = Some stamped_message /\
  frames w' 0 =
    [Js.serialize
       (Js.VObj [("type", Js.VStr "response.create");
                 ("timestamp", Js.VStr "9:00:00 AM");
                 ("event_id", Js.VStr "3f2504e0-4f89-41d3-9a0c-0305e82c3301")])] /\
  forallb (includes (Js.quote "timestamp" +:+ ":")) (frames w' 0) = true /\
  object_of ready_world (Ref 0) = Some bare_message /\
  existsb (includes (Js.quote "timestamp" +:+ ":")) (frames w1 0) = false /\
  frames w2 0 =
    (frames w1 0 ++
     [Js.serialize
        (Js.VObj [("type", Js.VStr "response.create");
                  ("event_id", Js.VStr "3f2504e0-4f89-41d3-9a0c-0305e82c3301");
                  ("timestamp", Js.VStr "10:15:30 AM")])])%list.
Proof. vm_compute. repeat split; reflexivity. Qed.

(** C4 as the specification words it fails: an event that arrives without
    [event_id] is stored without one, and two messages that the caller gave
    the same [event_id] are both stored under it. *)
Lemma identifier_missing_or_shared :
  let w' := after (on_message sample_ambient 0 (Some session_created)) active_world in
  let w2 := after (sendClientEvent later_ambient (Ref 1))
              (after (sendClientEvent sample_ambient (Ref 0)) twins_world) in
  recordable active_world (Remote 0 session_created) = true /\
  events (component w') = [Ref 0] /\
  Js.fields <$> object_of w' (Ref 0) =
    Some [("type", Js.VStr "session.created");
          ("timestamp", Js.VStr "10:15:30 AM")] /\
  Js.has "event_id" <$> (Js.fields <$> object_of w' (Ref 0)) = Some false /\
  events (component w2) = [Ref 1; Ref 0] /\
  Js.get "event_id" <$> (Js.fields <$> object_of w2 (Ref 0)) = Some (Js.VStr "evt_1") /\
  Js.get "event_id" <$> (Js.fields <$> object_of w2 (Ref 1)) = Some (Js.VStr "evt_1").
Proof. vm_compute. repeat split; reflexivity. Qed.

(** C4, as the code has it.  The entry recorded for an event carries, for
    an event sent with [sendClientEvent], the identifier the message had or,
    if it had none, one generated before the message was transmitted and
    stored, so that it always has one: the one frame handed to the channel
    is the serialization of the message with that identifier already in
    place.  For an event received on the channel the entry carries exactly
    the [event_id] of the payload, none being generated, and nothing is
    transmitted. *)
Theorem recorded_event_identifier amb s c w :
  recordable w s = true ->
  original w s = Some c ->
  let w' := after (record amb s) w in
  let id := Js.get "event_id" (Js.fields c) in
  exists c',
    events (component w') = entry w s :: events (component w) /\
    object_of w' (entry w s) = Some c' /\
    Js.get "event_id" (Js.fields c') =
      (if is_local s
       then if Js.truthy id then id else Js.VStr (Js.text (randomUUID amb))
       else id) /\
    (is_local s = true -> Js.truthy (Js.get "event_id" (Js.fields c')) = true) /\
    match s with
    | Local _ =>
        exists d,
          dataChannel (component w) = Some d /\
          frames w' d = (frames w d ++ [Js.stringify (identified amb c)])%list /\
          Js.get "event_id" (Js.fields (identified amb c)) =
            Js.get "event_id" (Js.fields c')
    | Remote _ _ =>
        Browser.channels (browser w') = Browser.channels (browser w)
    end.
Proof.
  intros Hrec Horig. cbn zeta.
  destruct (record_spec amb s c w Hrec Horig) as (_ & Hev & Hobj & _).
  eexists. split; [exact Hev |]. split; [exact Hobj |].
  rewrite dated_other by discriminate.
  destruct s as [l | d v]; cbn [is_local record].
  - rewrite identified_id. split; [reflexivity |]. split.
    + intros _. destruct (Js.truthy (Js.get "event_id" (Js.fields c))) eqn:E;
        [exact E | reflexivity].
    + cbn in Hrec, Horig.
      apply channel_open_inv in Hrec as (d & ch & Hd & Hch & Hopen).
      destruct (sendClientEvent_open amb l c d ch w Hd Hch Hopen Horig)
        as (_ & _ & _ & _ & Hsent & _).
      exists d. split; [exact Hd |]. split.
      * unfold frames. now rewrite Hsent, Hch.
      * reflexivity.
  - split; [reflexivity |]. split; [discriminate |].
    now destruct (on_message_structured amb d v c w Hrec Horig) as (_ & _ & _ & Hchs).
Qed.

Lemma recorded_event_identifier_witness :
  recordable ready_world (Local 0) = true /\
  original ready_world (Local 0) = Some bare_message /\
  exists c',
    object_of (after (record sample_ambient (Local 0)) ready_world) (Ref 0) = Some c' /\
    Js.get "event_id" (Js.fields c') =
      Js.VStr "3f2504e0-4f89-41d3-9a0c-0305e82c3301".
Proof.
  split; [reflexivity |]. split; [reflexivity |].
  destruct (recorded_event_identifier sample_ambient (Local 0) bare_message
              ready_world eq_refl eq_refl) as (c' & _ & Hobj & Hid & _).
  exists c'. split; [exact Hobj | exact Hid].
Defined.

(** C9 as the specification words it fails: the message
    [{ type: "response.create" }] is created without [event_id]; the entry
    recorded for it is that object with an [event_id]. *)
Lemma local_event_gains_identifier :
  let w' := after (sendClientEvent sample_ambient (Ref 0)) ready_world in
  object_of ready_world (Ref 0) = Some bare_message /\
  Js.get "event_id" (Js.fields bare_message) = Js.VUndef /\
  events (component w') = [Ref 0] /\
  Js.get "event_id" <$> (Js.fields <$> object_of w' (Ref 0)) =
    Some (Js.VStr "3f2504e0-4f89-41d3-9a0c-0305e82c3301").
Proof. vm_compute. repeat split; reflexivity. Qed.

(** C9, as the code has it.  Recording an event changes the object only to
    fill in a missing identifier (local events only) and a missing display
    timestamp: every other field, and the elements of an array, are those of
    the event as created; [event_id] is the original one for a received
    event and for a sent one that had it; [timestamp] is the original one if
    there was one; an object that had both is left exactly as it was; and
    the objects behind the other entries of the history are untouched. *)
Theorem recorded_event_fields amb s c w :
  recordable w s = true ->
  original w s = Some c ->
  let w' := after (record amb s) w in
  exists c',
    events (component w') = entry w s :: events (component w) /\
    object_of w' (entry w s) = Some c' /\
    Js.elems c' = Js.elems c /\
    (forall k, k <> "timestamp" -> k <> "event_id" ->
               Js.get k (Js.fields c') = Js.get k (Js.fields c)) /\
    (is_local s = false \/ Js.truthy (Js.get "event_id" (Js.fields c)) = true ->
     Js.get "event_id" (Js.fields c') = Js.get "event_id" (Js.fields c)) /\
    (Js.truthy (Js.get "timestamp" (Js.fields c)) = true ->
     Js.get "timestamp" (Js.fields c') = Js.get "timestamp" (Js.fields c)) /\
    (Js.truthy (Js.get "event_id" (Js.fields c)) = true ->
     Js.truthy (Js.get "timestamp" (Js.fields c)) = true -> c' = c) /\
    (forall y c0, y <> entry w s -> object_of w y = Some c0 ->
                  object_of w' y = Some c0).
Proof.
  intros Hrec Horig. cbn zeta.
  destruct (record_spec amb s c w Hrec Horig) as (_ & Hev & Hobj & Hframe).
  eexists. split; [exact Hev |]. split; [exact Hobj |].
  rewrite dated_elems.
  destruct (is_local s) eqn:Hloc.
  - split; [reflexivity |]. split; [| split; [| split; [| split]]].
    + intros k Hts Hid. rewrite dated_other by exact Hts.
      now apply identified_other.
    + intros [Hfalse | Hid]; [discriminate |].
      rewrite dated_other by discriminate. rewrite identified_id. now rewrite Hid.
    + intros Hts. rewrite dated_kept; rewrite identified_other by discriminate;
        [reflexivity | exact Hts].
    + intros Hid Hts. rewrite identified_kept by exact Hid. now apply dated_kept.
    + exact Hframe.
  - split; [reflexivity |]. split; [| split; [| split; [| split]]].
    + intros k Hts _. now apply dated_other.
    + intros _. now apply dated_other.
    + intros Hts. now rewrite dated_kept.
    + intros _ Hts. now apply dated_kept.
    + exact Hframe.
Qed.

Lemma recorded_event_fields_witness :
  recordable active_world (Remote 0 session_created) = true /\
  original active_world (Remote 0 session_created) =
    Some (Js.plain [("type", Js.VStr "session.created")]) /\
  exists c',
    object_of (after (record sample_ambient (Remote 0 session_created)) active_world)
      (Ref 0) = Some c' /\
    Js.get "type" (Js.fields c') = Js.VStr "session.created".
Proof.
  split; [reflexivity |]. split; [reflexivity |].
  destruct (recorded_event_fields sample_ambient (Remote 0 session_created)
              (Js.plain [("type", Js.VStr "session.created")])
              active_world eq_refl eq_refl)
    as (c' & _ & Hobj & _ & Hother & _).
  exists c'. split; [exact Hobj |].
  apply (Hother "type"); discriminate.
Defined.

(** *** Two runs of the whole lifecycle *)

(** A start in which every step succeeds, followed by the channel's [open]
    signal: the session is active with an empty history, both handles are
    retained, and the offer and the answer are committed. *)
Example smooth_start_is_active :
  isSessionActive (component active_world) = true /\
  events (component active_world) = [] /\
  dataChannel (component active_world) = Some 0 /\
  peerConnection (component active_world) = Some 0 /\
  channel_open active_world = true /\
  Browser.connections (browser active_world) =
    [{| Browser.closed := false; Browser.senders := [Some 0];
        Browser.ontrack := true; Browser.localDescription := Some "v=0";
        Browser.remoteDescription := Some "v=0 answer" |}] /\
  Browser.alerts (browser active_world) = [].
Proof. vm_compute. repeat split; reflexivity. Qed.

(** [sendTextMessage("hello")] on the active session: two frames go out, a
    [conversation.item.create] and then a [response.create], and the two
    objects are at the head of the history, the later one first. *)
Example sendTextMessage_sends_two_events :
  let w' := after (sendTextMessage sample_ambient later_ambient "hello") active_world in
  length (frames w' 0) = 2 /\
  events (component w') = [Ref 1; Ref 0] /\
  Js.get "type" <$> (Js.fields <$> object_of w' (Ref 0)) =
    Some (Js.VStr "conversation.item.create") /\
  Js.get "type" <$> (Js.fields <$> object_of w' (Ref 1)) =
    Some (Js.VStr "response.create") /\
  existsb (includes (Js.quote "timestamp")) (frames w' 0) = false /\
  Browser.live <$> Browser.tracks (browser (after stopSession w')) = [false].
Proof. vm_compute. repeat split; reflexivity. Qed.


(* ===================================================================== *)
(** ** Further properties of the code *)
(* ===================================================================== *)

(** *** validateApiKey and the first render *)

Lemma validateApiKey_run key probe w :
  validateApiKey key probe w =
  (Return (probe_ok probe),
   {| component :=
        {| isSessionActive := isSessionActive (component w);
           events := events (component w);
           dataChannel := dataChannel (component w);
           apiKey := apiKey (component w);
           isKeyValid := probe_ok probe;
           peerConnection := peerConnection (component w);
           audioElement := audioElement (component w) |};
      browser :=
        match probe with
        | Fulfilled _ => browser w
        | Rejected error =>
            Browser.with_console
              (Browser.console (browser w) ++
                 [[Browser.LText "Error validating API key:";
                   Browser.LText error]])%list
              (browser w)
        end |}).
Proof.
  unfold validateApiKey, setIsKeyValid, console_error. run.
  destruct probe as [r | error]; reflexivity.
Qed.

(** X1.  [validateApiKey] never throws, whatever the provider or the
    network does: it returns [true] exactly when the probe was answered
    with a success status, leaves that answer in the validity flag, and
    touches nothing else of the component, no browser object and not the
    stored credential; a request that failed is reported on the console and
    counts as an invalid key. *)
Theorem validateApiKey_outcome key probe w :
  let w' := after (validateApiKey key probe) w in
  (validateApiKey key probe w).1 = Return (probe_ok probe) /\
  isKeyValid (component w') = probe_ok probe /\
  apiKey (component w') = apiKey (component w) /\
  isSessionActive (component w') = isSessionActive (component w) /\
  events (component w') = events (component w) /\
  dataChannel (component w') = dataChannel (component w) /\
  peerConnection (component w') = peerConnection (component w) /\
  Browser.localStorage (browser w') = Browser.localStorage (browser w) /\
  Browser.connections (browser w') = Browser.connections (browser w) /\
  Browser.channels (browser w') = Browser.channels (browser w) /\
  Browser.alerts (browser w') = Browser.alerts (browser w) /\
  match probe with
  | Fulfilled _ => Browser.console (browser w') = Browser.console (browser w)
  | Rejected error =>
      Browser.console (browser w') =
      (Browser.console (browser w) ++
         [[Browser.LText "Error validating API key:"; Browser.LText error]])%list
  end.
Proof.
  unfold after. rewrite validateApiKey_run. cbn [fst snd component browser].
  destruct probe; cbn; repeat split; reflexivity.
Qed.

Lemma mount_run storage probe :
  mounted storage probe =
  let key := default "" (storage !! storage_key) in
  {| component :=
       {| isSessionActive := false; events := []; dataChannel := None;
          apiKey := key;
          isKeyValid := Js.truthy (Js.VStr key) && probe_ok probe;
          peerConnection := None; audioElement := None |};
     browser :=
       {| Browser.heap := []; Browser.tracks := []; Browser.channels := [];
          Browser.connections := [];
          Browser.localStorage :=
            if Js.truthy (Js.VStr key) then <[storage_key := key]> storage
            else storage;
          Browser.alerts := [];
          Browser.console :=
            if Js.truthy (Js.VStr key) then
              match probe with
              | Fulfilled _ => []
              | Rejected error =>
                  [[Browser.LText "Error validating API key:";
                    Browser.LText error]]
              end
            else [] |} |}.
Proof.
  unfold mounted, after, mount, persist_apiKey, wire_dataChannel, initial.
  run. cbn.
  destruct (negb (String.eqb (default "" (storage !! storage_key)) "")) eqn:E;
    cbn; rewrite ?E; cbn; [| reflexivity].
  unfold bind. rewrite validateApiKey_run. cbn. rewrite ?E.
  destruct probe; reflexivity.
Qed.

(** X12.  The first render leaves local storage exactly as it found it,
    loads the stored credential (the empty string if there is none), starts
    idle with an empty history, and raises the validity flag exactly when a
    non-empty credential was stored and the provider answered the probe
    with a success status. *)
Theorem mount_outcome storage probe :
  let w := mounted storage probe in
  Browser.localStorage (browser w) = storage /\
  apiKey (component w) = default "" (storage !! storage_key) /\
  isKeyValid (component w) =
    Js.truthy (Js.VStr (apiKey (component w))) && probe_ok probe /\
  idle (component w) /\
  events (component w) = [] /\
  Browser.connections (browser w) = [] /\
  Browser.channels (browser w) = [] /\
  Browser.alerts (browser w) = [].
Proof.
  rewrite mount_run. cbn zeta. cbn [component browser apiKey isKeyValid events
    Browser.localStorage Browser.connections Browser.channels Browser.alerts].
  repeat split.
  destruct (storage !! storage_key) as [k|] eqn:Hk; cbn.
  - destruct (negb (String.eqb k "")); [| reflexivity].
    now apply insert_id.
  - reflexivity.
Qed.

(** *** startSession, in full *)

Ltac start_step :=
  repeat first [ rewrite alter_new | rewrite lookup_new | progress cbn ].

Lemma startSession_success_run w env n sdp answer :
  credential_accepted w env = true ->
  goes_through env n sdp answer ->
  startSession env w = (Return tt, started w n sdp answer).
Proof.
  intros Hcred (Hmic & Hoff & Hlc & Hneg & Hrc).
  destruct env as [pr mic off lc neg rc]. cbn in Hmic, Hoff, Hlc, Hneg, Hrc. subst.
  destruct w as [[active evs dc key valid pc audio] [hp ts chs cns st al co]].
  unfold credential_accepted in Hcred. cbn in Hcred.
  apply andb_true_iff in Hcred as [Hkey Hok]. revert Hkey Hok.
  unfold started. unfold_start. run. cbn. intros Hkey Hok. rewrite Hkey. cbn.
  destruct valid; cbn in *.
  - start_step. reflexivity.
  - destruct pr as [[good txt] | err]; cbn in *; [| discriminate].
    subst good. start_step. reflexivity.
Qed.

(** What any [startSession] does, however it ends. *)
Lemma startSession_effect env w :
  let w' := after (startSession env) w in
  threw (startSession env) w = false /\
  (isSessionActive (component w') = isSessionActive (component w) /\
   events (component w') = events (component w) /\
   apiKey (component w') = apiKey (component w) /\
   Browser.heap (browser w') = Browser.heap (browser w) /\
   Browser.localStorage (browser w') = Browser.localStorage (browser w)) /\
  ((forall i c, Browser.connections (browser w) !! i = Some c ->
                Browser.connections (browser w') !! i = Some c) /\
   (forall i c, Browser.channels (browser w) !! i = Some c ->
                Browser.channels (browser w') !! i = Some c) /\
   (forall i c, Browser.tracks (browser w) !! i = Some c ->
                Browser.tracks (browser w') !! i = Some c) /\
   length (Browser.connections (browser w')) <=
     S (length (Browser.connections (browser w))) /\
   length (Browser.channels (browser w')) <=
     S (length (Browser.channels (browser w)))) /\
  (dataChannel (component w') = dataChannel (component w) \/
   dataChannel (component w') = Some (length (Browser.channels (browser w))) /\
   Browser.channels (browser w') !! length (Browser.channels (browser w)) =
     Some (Browser.attach_listeners
             (Browser.new_channel (length (Browser.connections (browser w)))
                "oai-events"))) /\
  (peerConnection (component w') = peerConnection (component w) \/
   exists n sdp answer,
     credential_accepted w env = true /\ goes_through env n sdp answer).
Proof.
  destruct env as [pr mic off lc neg rc].
  destruct w as [[active evs dc key valid pc audio] [hp ts chs cns st al co]].
  unfold credential_accepted, goes_through.
  cbn [probe microphone offer localCommit negotiation remoteCommit
       component browser apiKey isKeyValid].
  unfold_start. run. cbn.
  assert (Hpre : forall A (l : list A) (x : A),
            (forall i c, l !! i = Some c -> (l ++ [x])%list !! i = Some c) /\
            length (l ++ [x])%list <= S (length l)).
  { intros A l x. split.
    - intros i c Hi. now apply lookup_app_l_Some.
    - rewrite length_app. cbn. lia. }
  assert (Hpre' : forall A (l r : list A),
            forall i c, l !! i = Some c -> (l ++ r)%list !! i = Some c).
  { intros A l r i c Hi. now apply lookup_app_l_Some. }
  destruct (String.eqb key "") eqn:Hkey; cbn.
  { repeat split; eauto. }
  destruct mic as [[|n] | why], off as [sdp | e1], lc as [[] | e2],
    neg as [[[] [body | e3]] | e4], rc as [[] | e5];
    (destruct valid; cbn;
     [ | destruct pr as [[[] txt] | err]; cbn ]);
    start_step;
    repeat split; eauto; try apply Hpre; try lia;
    try (right; split; [reflexivity | apply lookup_new]);
    try (right; do 3 eexists; repeat split; reflexivity);
    try (left; reflexivity).
Qed.

(** X2.  When the credential checks pass and every later step succeeds,
    [startSession] returns without any alert or console report, retains the
    connection and the channel it created, and leaves them as follows: the
    connection is open, sends the first track of the microphone stream, has
    the ontrack handler and has the offer and the provider's answer
    committed; the channel is named [oai-events], has the listeners attached
    and is still connecting; the session is not yet marked active. *)
Theorem startSession_success w env n sdp answer :
  credential_accepted w env = true ->
  goes_through env n sdp answer ->
  let w' := after (startSession env) w in
  let track := length (Browser.tracks (browser w)) in
  threw (startSession env) w = false /\
  Browser.alerts (browser w') = Browser.alerts (browser w) /\
  Browser.console (browser w') = Browser.console (browser w) /\
  isSessionActive (component w') = isSessionActive (component w) /\
  isKeyValid (component w') = true /\
  peerConnection (component w') = Some (length (Browser.connections (browser w))) /\
  Browser.connections (browser w') !! length (Browser.connections (browser w)) =
    Some {| Browser.closed := false; Browser.senders := [Some track];
            Browser.ontrack := true; Browser.localDescription := Some sdp;
            Browser.remoteDescription := Some answer |} /\
  Browser.tracks (browser w') !! track = Some {| Browser.live := true |} /\
  dataChannel (component w') = Some (length (Browser.channels (browser w))) /\
  Browser.channels (browser w') !! length (Browser.channels (browser w)) =
    Some {| Browser.connection := length (Browser.connections (browser w));
            Browser.label := "oai-events";
            Browser.readyState := Browser.Connecting;
            Browser.sent := []; Browser.listening := true |} /\
  channel_open w' = false.
Proof.
  intros Hcred Hgo. unfold after, threw, channel_open.
  rewrite (startSession_success_run w env n sdp answer Hcred Hgo).
  cbn [fst snd]. unfold started. cbn.
  rewrite !lookup_new. cbn. repeat split; reflexivity.
Qed.

Lemma startSession_success_witness :
  credential_accepted validated_world smooth = true /\
  goes_through smooth 0 "v=0" "v=0 answer" /\
  peerConnection (component (after (startSession smooth) validated_world)) = Some 0.
Proof.
  assert (Hgo : goes_through smooth 0 "v=0" "v=0 answer")
    by (repeat split; reflexivity).
  split; [reflexivity |]. split; [exact Hgo |].
  destruct (startSession_success validated_world smooth 0 "v=0" "v=0 answer"
              eq_refl Hgo) as (_ & _ & _ & _ & _ & Hpc & _).
  exact Hpc.
Defined.

(** X3.  [startSession] never throws, whatever the browser and the
    provider answer at each step; and, success or failure, it never marks
    the session active and never touches the event history, the objects of
    the heap, the current credential or local storage. *)
Theorem startSession_contained env w :
  let w' := after (startSession env) w in
  threw (startSession env) w = false /\
  isSessionActive (component w') = isSessionActive (component w) /\
  events (component w') = events (component w) /\
  apiKey (component w') = apiKey (component w) /\
  Browser.heap (browser w') = Browser.heap (browser w) /\
  Browser.localStorage (browser w') = Browser.localStorage (browser w).
Proof.
  destruct (startSession_effect env w) as (Hthrew & Hframe & _).
  cbn zeta. split; [exact Hthrew | exact Hframe].
Qed.

(** X4.  A call of [startSession] creates at most one connection and at
    most one channel, and leaves every connection, channel and track that
    existed before exactly as it was: in particular it closes nothing, so a
    session that was running when it is called keeps its open connection. *)
Theorem startSession_keeps_existing_objects env w :
  let w' := after (startSession env) w in
  (forall i c, Browser.connections (browser w) !! i = Some c ->
               Browser.connections (browser w') !! i = Some c) /\
  (forall i c, Browser.channels (browser w) !! i = Some c ->
               Browser.channels (browser w') !! i = Some c) /\
  (forall i c, Browser.tracks (browser w) !! i = Some c ->
               Browser.tracks (browser w') !! i = Some c) /\
  length (Browser.connections (browser w')) <=
    S (length (Browser.connections (browser w))) /\
  length (Browser.channels (browser w')) <=
    S (length (Browser.channels (browser w))).
Proof.
  destruct (startSession_effect env w) as (_ & _ & Hobjects & _).
  exact Hobjects.
Qed.

(** X7.  Once the validity flag is raised, [startSession] does not ask
    the provider again: what it does is the same whatever the probe would
    have answered, so a key the provider has revoked since is found out
    only by the negotiation itself. *)
Theorem startSession_trusts_validity_flag env other w :
  isKeyValid (component w) = true ->
  startSession env w =
  startSession
    {| probe := other; microphone := microphone env; offer := offer env;
       localCommit := localCommit env; negotiation := negotiation env;
       remoteCommit := remoteCommit env |} w.
Proof.
  destruct w as [[active evs dc key valid pc audio] b]. cbn. intros ->.
  unfold startSession. run. cbn. reflexivity.
Qed.

Lemma startSession_trusts_validity_flag_witness :
  isKeyValid (component validated_world) = true /\
  startSession smooth validated_world =
  startSession
    {| probe := refused; microphone := microphone smooth; offer := offer smooth;
       localCommit := localCommit smooth; negotiation := negotiation smooth;
       remoteCommit := remoteCommit smooth |} validated_world.
Proof.
  split; [reflexivity |].
  apply (startSession_trusts_validity_flag smooth refused validated_world).
  reflexivity.
Defined.

(** *** Start, open, stop *)

Lemma alter_mid {A} (f : A -> A) (l r : list A) (x : A) :
  alter f (length l) (l ++ x :: r)%list = (l ++ f x :: r)%list.
Proof. induction l as [|a l IH]; cbn; [reflexivity | now f_equal]. Qed.

(** X5.  After a successful [startSession] the channel is not yet open
    and the session not yet active; when the browser signals that the
    channel has opened, the [open] listener marks the session active and
    empties the event history, the handles stay as they were, and from then
    on [sendClientEvent] finds the channel open. *)
Theorem session_active_once_channel_opens w env n sdp answer :
  credential_accepted w env = true ->
  goes_through env n sdp answer ->
  let d := length (Browser.channels (browser w)) in
  let w1 := after (startSession env) w in
  let w2 := after (on_open d) w1 in
  channel_open w1 = false /\
  isSessionActive (component w1) = isSessionActive (component w) /\
  threw (on_open d) w1 = false /\
  isSessionActive (component w2) = true /\
  events (component w2) = [] /\
  channel_open w2 = true /\
  dataChannel (component w2) = Some d /\
  peerConnection (component w2) = peerConnection (component w1).
Proof.
  intros Hcred Hgo. cbn zeta. unfold after, threw.
  rewrite !(startSession_success_run w env n sdp answer Hcred Hgo).
  cbn [fst snd]. unfold channel_open, on_open, listening,
    update_channel, setIsSessionActive, setEvents, started. run. cbn.
  rewrite !alter_new. cbn. rewrite !lookup_new. cbn. rewrite !lookup_new. cbn.
  repeat split; reflexivity.
Qed.

Lemma session_active_once_channel_opens_witness :
  credential_accepted validated_world smooth = true /\
  goes_through smooth 0 "v=0" "v=0 answer" /\
  isSessionActive
    (component (after (on_open 0) (after (startSession smooth) validated_world)))
  = true.
Proof.
  assert (Hgo : goes_through smooth 0 "v=0" "v=0 answer")
    by (repeat split; reflexivity).
  split; [reflexivity |]. split; [exact Hgo |].
  destruct (session_active_once_channel_opens validated_world smooth 0
              "v=0" "v=0 answer" eq_refl Hgo) as (_ & _ & _ & Hactive & _).
  exact Hactive.
Defined.

Lemma lookup_new_fmap {A B} (f : A -> B) (l : list A) (r : list B) (x : B) :
  ((f <$> l) ++ x :: r)%list !! length l = Some x.
Proof. induction l as [|a l IH]; cbn; [reflexivity | exact IH]. Qed.

Lemma closed_by_other p ch :
  Browser.connection ch <> p -> Browser.closed_by p ch = ch.
Proof.
  intros Hne. unfold Browser.closed_by.
  destruct (Nat.eqb (Browser.connection ch) p) eqn:E; [| reflexivity].
  apply Nat.eqb_eq in E. contradiction.
Qed.

(** X6.  A successful [startSession] followed by [stopSession] gives
    back everything the start retained: the session is idle, the connection
    that was created is closed, the microphone track it was sending is
    stopped and the channel is closed; every connection and track that
    existed before the start, and every channel of an existing connection,
    is exactly as it was. *)
Theorem start_then_stop_releases w env n sdp answer :
  credential_accepted w env = true ->
  goes_through env n sdp answer ->
  let b := browser w in
  let w2 := after stopSession (after (startSession env) w) in
  idle (component w2) /\
  Browser.closed <$> Browser.connections (browser w2) !! length (Browser.connections b)
    = Some true /\
  Browser.tracks (browser w2) !! length (Browser.tracks b)
    = Some {| Browser.live := false |} /\
  Browser.readyState <$> Browser.channels (browser w2) !! length (Browser.channels b)
    = Some Browser.Closed /\
  (forall i c, Browser.connections b !! i = Some c ->
               Browser.connections (browser w2) !! i = Some c) /\
  (forall i c, Browser.channels b !! i = Some c ->
               Browser.connection c < length (Browser.connections b) ->
               Browser.channels (browser w2) !! i = Some c) /\
  (forall i c, Browser.tracks b !! i = Some c ->
               Browser.tracks (browser w2) !! i = Some c).
Proof.
  intros Hcred Hgo. cbn zeta. unfold after.
  rewrite (startSession_success_run w env n sdp answer Hcred Hgo).
  cbn [fst snd]. rewrite stopSession_run. cbn [snd].
  unfold stopped, retained_senders, started, idle. cbn.
  rewrite !lookup_new. cbn. rewrite !alter_new, alter_mid. cbn.
  unfold Browser.close_RTCPeerConnection. cbn. rewrite !lookup_new. cbn.
  rewrite !alter_new, !fmap_app. cbn.
  split; [now repeat split |].
  split; [now rewrite lookup_new |].
  split; [now rewrite lookup_new |].
  split; [| split; [| split]].
  - rewrite lookup_new_fmap. cbn. unfold Browser.closed_by. cbn.
    now rewrite Nat.eqb_refl.
  - intros i c Hi. now apply lookup_app_l_Some.
  - intros i c Hi Hown. apply lookup_app_l_Some.
    rewrite list_lookup_fmap, Hi. cbn. f_equal. apply closed_by_other. lia.
  - intros i c Hi. now apply lookup_app_l_Some.
Qed.

Lemma start_then_stop_releases_witness :
  credential_accepted validated_world smooth = true /\
  goes_through smooth 0 "v=0" "v=0 answer" /\
  idle (component (after stopSession (after (startSession smooth) validated_world))).
Proof.
  assert (Hgo : goes_through smooth 0 "v=0" "v=0 answer")
    by (repeat split; reflexivity).
  split; [reflexivity |]. split; [exact Hgo |].
  destruct (start_then_stop_releases validated_world smooth 0
              "v=0" "v=0 answer" eq_refl Hgo) as (Hidle & _).
  exact Hidle.
Defined.

(** *** Messages that are not objects *)

Lemma sendClientEvent_closed_run amb message w :
  channel_open w = false ->
  exists note,
    sendClientEvent amb message w =
    (Return tt,
     {| component := component w;
        browser :=
          Browser.with_console
            (Browser.console (browser w) ++
               [[Browser.LText "Failed to send message - data channel not available or not open";
                 log_of message; Browser.LText note]])%list
            (browser w) |}).
Proof.
  intros Hclosed. pose proof (channel_state_closed w Hclosed) as H.
  unfold sendClientEvent, console_error. unfold channel_state in *. run.
  destruct (dataChannel (component w)) as [d|]; cbn in *.
  - destruct (Browser.channels (browser w) !! d) as [ch|]; cbn in *.
    + destruct (Browser.readyState ch); cbn in *; try contradiction; eauto.
    + eauto.
  - eauto.
Qed.

Lemma sendClientEvent_rejected amb message w :
  channel_open w = true ->
  object_of w message = None ->
  exists error, sendClientEvent amb message w = (Throw error, w).
Proof.
  intros Hopen Hobj.
  apply channel_open_inv in Hopen as (d & ch & Hd & Hch & Hst).
  unfold sendClientEvent, channel_state, get_property, set_property. run.
  rewrite Hd. cbn. rewrite Hch. cbn. rewrite Hst.
  destruct message as [l | v]; cbn in Hobj.
  - rewrite Hobj. eauto.
  - destruct v; cbn; eauto.
Qed.

(** X9.  With the channel open, a message that is not an object ([null],
    [undefined], a number, a string, a boolean) makes [sendClientEvent]
    throw; nothing has been sent and nothing has changed when it does: no
    frame, no history entry, no console report. *)
Theorem sendClientEvent_rejects_non_objects amb message w :
  channel_open w = true ->
  object_of w message = None ->
  threw (sendClientEvent amb message) w = true /\
  after (sendClientEvent amb message) w = w.
Proof.
  intros Hopen Hobj.
  destruct (sendClientEvent_rejected amb message w Hopen Hobj) as (error & Hrun).
  unfold threw, after. rewrite Hrun. split; reflexivity.
Qed.

Lemma sendClientEvent_rejects_non_objects_witness :
  channel_open active_world = true /\
  object_of active_world (Prim Js.VNull) = None /\
  threw (sendClientEvent sample_ambient (Prim Js.VNull)) active_world = true.
Proof.
  split; [reflexivity |]. split; [reflexivity |].
  apply (sendClientEvent_rejects_non_objects sample_ambient (Prim Js.VNull)
           active_world); reflexivity.
Defined.

Lemma on_message_ignored amb d parsed w :
  attached w d = false ->
  on_message amb d parsed w = (Return tt, w).
Proof.
  unfold attached. intros Hoff. unfold on_message, listening. run.
  rewrite Hoff. reflexivity.
Qed.

Lemma on_message_rejected amb d parsed w :
  attached w d = true ->
  (forall v, parsed = Some v -> original w (Remote d v) = None) ->
  exists error, on_message amb d parsed w = (Throw error, w).
Proof.
  unfold attached. intros Hon Hbad.
  unfold on_message, listening, materialize, get_property, set_property. run.
  rewrite Hon. cbn. destruct parsed as [v|]; [| eauto].
  specialize (Hbad v eq_refl). destruct v; cbn in *; try discriminate; eauto.
Qed.

(** X8.  A frame whose text is not JSON, or is the JSON of [null], a
    number, a string or a boolean, never reaches the history: the [message]
    listener throws, and the state is what it was before the frame. *)
Theorem on_message_rejects_non_objects amb d parsed w :
  attached w d = true ->
  (forall v, parsed = Some v -> original w (Remote d v) = None) ->
  threw (on_message amb d parsed) w = true /\
  after (on_message amb d parsed) w = w.
Proof.
  intros Hon Hbad.
  destruct (on_message_rejected amb d parsed w Hon Hbad) as (error & Hrun).
  unfold threw, after. rewrite Hrun. split; reflexivity.
Qed.

Lemma on_message_rejects_non_objects_witness :
  attached active_world 0 = true /\
  threw (on_message sample_ambient 0 (Some (Js.VNum seven))) active_world = true.
Proof.
  split; [reflexivity |].
  apply (on_message_rejects_non_objects sample_ambient 0 (Some (Js.VNum seven))
           active_world); [reflexivity |].
  intros v [= <-]. reflexivity.
Defined.

(** *** sendTextMessage *)

Lemma sendClientEvent_open_frame amb l c d ch w :
  dataChannel (component w) = Some d ->
  Browser.channels (browser w) !! d = Some ch ->
  Browser.readyState ch = Browser.Open ->
  Browser.heap (browser w) !! l = Some c ->
  let w' := after (sendClientEvent amb (Ref l)) w in
  (isSessionActive (component w') = isSessionActive (component w) /\
   dataChannel (component w') = dataChannel (component w) /\
   apiKey (component w') = apiKey (component w) /\
   isKeyValid (component w') = isKeyValid (component w) /\
   peerConnection (component w') = peerConnection (component w)) /\
  (Browser.tracks (browser w') = Browser.tracks (browser w) /\
   Browser.connections (browser w') = Browser.connections (browser w) /\
   Browser.localStorage (browser w') = Browser.localStorage (browser w) /\
   Browser.alerts (browser w') = Browser.alerts (browser w) /\
   Browser.console (browser w') = Browser.console (browser w)) /\
  length (Browser.heap (browser w')) = length (Browser.heap (browser w)).
Proof.
  destruct w as [[active evs dc key valid pc audio] [hp ts chs cns st al co]].
  cbn [component browser dataChannel Browser.channels Browser.heap].
  intros -> Hch Hopen Hc.
  unfold sendClientEvent, channel_state, get_property, set_property,
    JSON_stringify, channel_send, update_channel, setEvents. run. cbn.
  repeat first [ rewrite Hch | rewrite Hopen | rewrite Hc
               | rewrite list_lookup_alter_eq | progress cbn ].
  destruct (Js.truthy (Js.get "timestamp" (Js.set "event_id" _ (Js.fields c))));
    repeat first [ rewrite Hch | rewrite Hopen | rewrite Hc
                 | rewrite list_lookup_alter_eq | progress cbn ];
    rewrite ?length_alter; repeat split; reflexivity.
Qed.

Lemma returned {m : Run unit} {w} :
  threw m w = false -> m w = (Return tt, after m w).
Proof.
  unfold threw, after. destruct (m w) as [[[]|e] w']; cbn; congruence.
Qed.

Lemma allocate_run c w :
  allocate c w =
  (Return (length (Browser.heap (browser w))),
   {| component := component w;
      browser := Browser.with_heap (Browser.heap (browser w) ++ [c])%list (browser w) |}).
Proof. reflexivity. Qed.

Lemma sendTextMessage_unfold amb1 amb2 message w :
  let n := length (Browser.heap (browser w)) in
  let w1 := after (allocate (text_event message)) w in
  let w2 := after (sendClientEvent amb1 (Ref n)) w1 in
  let w3 := after (allocate response_create) w2 in
  threw (sendClientEvent amb1 (Ref n)) w1 = false ->
  sendTextMessage amb1 amb2 message w =
  sendClientEvent amb2 (Ref (length (Browser.heap (browser w2)))) w3.
Proof.
  intros n w1 w2 w3 Hok. unfold sendTextMessage, bind.
  rewrite allocate_run. fold n. change (sendClientEvent amb1 (Ref n) _)
    with (sendClientEvent amb1 (Ref n) w1).
  rewrite (returned Hok). fold w2. rewrite allocate_run. reflexivity.
Qed.

(** X10.  With the channel open, [sendTextMessage(text)] hands exactly
    two frames to the channel, in this order: a [conversation.item.create]
    that carries the text unchanged as the [input_text] of a user message,
    and a [response.create]; each has a freshly generated [event_id] and no
    [timestamp].  The two new objects go to the head of the history, the
    [response.create] first, and the channel is still open afterwards. *)
Theorem sendTextMessage_open amb1 amb2 message w :
  channel_open w = true ->
  let w' := after (sendTextMessage amb1 amb2 message) w in
  let n := length (Browser.heap (browser w)) in
  exists d,
    dataChannel (component w) = Some d /\
    threw (sendTextMessage amb1 amb2 message) w = false /\
    frames w' d =
      (frames w d ++
       [Js.serialize
          (Js.VObj (Js.fields (text_event message) ++
                    [("event_id", Js.VStr (Js.text (randomUUID amb1)))])%list);
        Js.serialize
          (Js.VObj [("type", Js.VStr "response.create");
                    ("event_id", Js.VStr (Js.text (randomUUID amb2)))])])%list /\
    events (component w') = Ref (S n) :: Ref n :: events (component w) /\
    object_of w' (Ref n) =
      Some (Js.plain (Js.fields (text_event message) ++
                      [("event_id", Js.VStr (Js.text (randomUUID amb1)));
                       ("timestamp", Js.VStr (Js.text (toLocaleTimeString amb1)))])%list) /\
    object_of w' (Ref (S n)) =
      Some (Js.plain [("type", Js.VStr "response.create");
                      ("event_id", Js.VStr (Js.text (randomUUID amb2)));
                      ("timestamp", Js.VStr (Js.text (toLocaleTimeString amb2)))]) /\
    channel_open w' = true.
Proof.
  intros Hopen. cbn zeta.
  apply channel_open_inv in Hopen as (d & ch & Hd & Hch & Hst).
  exists d. split; [exact Hd |].
  set (n := length (Browser.heap (browser w))).
  set (w1 := after (allocate (text_event message)) w).
  assert (H1 : Browser.heap (browser w1) !! n = Some (text_event message))
    by apply lookup_new.
  destruct (sendClientEvent_open amb1 n _ d ch w1 Hd Hch Hst H1)
    as (Hok1 & Hev1 & Hobj1 & Hrest1 & Hsent1 & _).
  destruct (sendClientEvent_open_frame amb1 n _ d ch w1 Hd Hch Hst H1)
    as ((_ & Hd1 & _) & _ & Hlen1).
  set (w2 := after (sendClientEvent amb1 (Ref n)) w1) in *.
  set (w3 := after (allocate response_create) w2).
  assert (Hn2 : length (Browser.heap (browser w2)) = S n).
  { rewrite Hlen1. unfold w1, after. rewrite allocate_run. cbn.
    rewrite length_app. cbn. fold n. lia. }
  assert (H3 : Browser.heap (browser w3) !! S n = Some response_create).
  { unfold w3, after. rewrite allocate_run. cbn. rewrite <- Hn2.
    apply lookup_new. }
  assert (Hd3 : dataChannel (component w3) = Some d) by (rewrite <- Hd; exact Hd1).
  assert (Hch3 : Browser.channels (browser w3) !! d =
                 Some (Browser.push_frame
                         (Js.stringify (identified amb1 (text_event message))) ch))
    by exact Hsent1.
  destruct (sendClientEvent_open amb2 (S n) _ d _ w3 Hd3 Hch3 Hst H3)
    as (Hok2 & Hev2 & Hobj2 & Hrest2 & Hsent2 & _).
  destruct (sendClientEvent_open_frame amb2 (S n) _ d _ w3 Hd3 Hch3 Hst H3)
    as ((_ & Hd4 & _) & _).
  pose proof (sendTextMessage_unfold amb1 amb2 message w Hok1) as Hrun.
  fold n w1 w2 w3 in Hrun. rewrite Hn2 in Hrun.
  unfold after at 1 2 3 4 5, threw at 1. rewrite !Hrun.
  fold (after (sendClientEvent amb2 (Ref (S n))) w3).
  fold (threw (sendClientEvent amb2 (Ref (S n))) w3).
  set (w4 := after (sendClientEvent amb2 (Ref (S n))) w3) in *.
  split; [exact Hok2 |]. split; [| split; [| split; [| split]]].
  - unfold frames. rewrite Hsent2. cbn [fmap option_fmap option_map default].
    cbn [Browser.push_frame Browser.sent].
    change (Browser.channels (browser w)) with (Browser.channels (browser w1)) in Hch.
    unfold w1, after in Hch |- *.
    replace (Browser.channels (browser w) !! d) with (Some ch)
      by (symmetry; exact Hch).
    cbn. now rewrite <- app_assoc.
  - rewrite Hev2. f_equal. exact Hev1.
  - cbn [object_of]. rewrite Hrest2 by lia.
    unfold w3, after. rewrite allocate_run. cbn [snd browser Browser.with_heap Browser.heap].
    rewrite lookup_app_l_Some with (x := dated amb1 (identified amb1 (text_event message)));
      [reflexivity | exact Hobj1].
  - cbn [object_of]. rewrite Hobj2. reflexivity.
  - unfold channel_open. rewrite Hd4, Hd3, Hsent2. cbn. now rewrite Hst.
Qed.

Lemma sendTextMessage_open_witness :
  channel_open active_world = true /\
  events (component (after (sendTextMessage sample_ambient later_ambient "hello")
                       active_world)) = [Ref 1; Ref 0].
Proof.
  split; [reflexivity |].
  destruct (sendTextMessage_open sample_ambient later_ambient "hello"
              active_world eq_refl) as (d & _ & _ & _ & Hev & _).
  exact Hev.
Defined.

(** X11.  With the channel absent or not open, [sendTextMessage] sends
    nothing and does not throw: no channel receives a frame, the history
    and the component state are as they were, the two messages it built
    are left unreferenced on the heap, and each of the two refused sends is
    reported on the console. *)
Theorem sendTextMessage_without_open_channel amb1 amb2 message w :
  channel_open w = false ->
  let w' := after (sendTextMessage amb1 amb2 message) w in
  let n := length (Browser.heap (browser w)) in
  threw (sendTextMessage amb1 amb2 message) w = false /\
  component w' = component w /\
  Browser.channels (browser w') = Browser.channels (browser w) /\
  Browser.heap (browser w') =
    (Browser.heap (browser w) ++ [text_event message; response_create])%list /\
  exists note1 note2,
    Browser.console (browser w') =
    (Browser.console (browser w) ++
       [[Browser.LText "Failed to send message - data channel not available or not open";
         Browser.LObject n; Browser.LText note1];
        [Browser.LText "Failed to send message - data channel not available or not open";
         Browser.LObject (S n); Browser.LText note2]])%list.
Proof.
  intros Hclosed. cbn zeta. unfold sendTextMessage, bind, after, threw.
  rewrite allocate_run.
  destruct (sendClientEvent_closed_run amb1
              (Ref (length (Browser.heap (browser w))))
              {| component := component w;
                 browser := Browser.with_heap
                              (Browser.heap (browser w) ++ [text_event message])%list
                              (browser w) |} Hclosed) as (note1 & ->).
  rewrite allocate_run. cbn [component browser Browser.with_console
    Browser.with_heap Browser.heap].
  match goal with
  | |- context [sendClientEvent amb2 ?m ?w0] =>
      destruct (sendClientEvent_closed_run amb2 m w0 Hclosed) as (note2 & ->)
  end.
  cbn. rewrite length_app. cbn.
  replace (length (Browser.heap (browser w)) + 1) with
    (S (length (Browser.heap (browser w)))) by lia.
  repeat split; try reflexivity.
  - now rewrite <- app_assoc.
  - exists note1, note2. now rewrite <- app_assoc.
Qed.

Lemma sendTextMessage_without_open_channel_witness :
  channel_open validated_world = false /\
  threw (sendTextMessage sample_ambient later_ambient "hello") validated_world = false.
Proof.
  split; [reflexivity |].
  apply (sendTextMessage_without_open_channel sample_ambient later_ambient
           "hello" validated_world).
  reflexivity.
Defined.

(** *** What holds in every state the application reaches *)

Lemma preserves_bind {A B} (I : World -> Prop) (m : Run A) (k : A -> Run B) :
  preserves I m -> (forall a, preserves I (k a)) -> preserves I (bind m k).
Proof.
  intros Hm Hk w Hw. specialize (Hm w Hw). unfold after, bind in *.
  destruct (m w) as [[a | e] w1]; cbn in *; [now apply Hk | exact Hm].
Qed.

Lemma steady_refl w : steady w w.
Proof. repeat split; eauto. Qed.

Lemma steady_trans w1 w2 w3 : steady w1 w2 -> steady w2 w3 -> steady w1 w3.
Proof.
  intros (Ha & Hb & Hc & Hd & He & Hf) (Ha' & Hb' & Hc' & Hd' & He' & Hf').
  repeat split; try congruence.
  intros d ch Hch. destruct (Hf d ch Hch) as (ch2 & Hch2 & Hl2 & Hn2).
  destruct (Hf' d ch2 Hch2) as (ch3 & Hch3 & Hl3 & Hn3).
  exists ch3. repeat split; congruence.
Qed.

Lemma steady_bind {A B} (m : Run A) (k : A -> Run B) :
  (forall w, steady w (after m w)) ->
  (forall a w, steady w (after (k a) w)) ->
  forall w, steady w (after (bind m k) w).
Proof.
  intros Hm Hk w. specialize (Hm w). unfold after, bind in *.
  destruct (m w) as [[a | e] w1]; cbn in *; [| exact Hm].
  eapply steady_trans; [exact Hm | apply Hk].
Qed.

Lemma steady_allocate c w : steady w (after (allocate c) w).
Proof. repeat split; eauto. Qed.

Lemma steady_sendClientEvent amb message w :
  steady w (after (sendClientEvent amb message) w).
Proof.
  destruct (channel_open w) eqn:Hopen.
  - destruct (object_of w message) as [c|] eqn:Hobj.
    + destruct message as [l | v]; [| discriminate]. cbn in Hobj.
      apply channel_open_inv in Hopen as (d & ch & Hd & Hch & Hst).
      destruct (sendClientEvent_open amb l c d ch w Hd Hch Hst Hobj)
        as (_ & _ & _ & _ & Hsent & Hothers).
      destruct (sendClientEvent_open_frame amb l c d ch w Hd Hch Hst Hobj)
        as ((_ & Hdc & Hkey & _ & Hpc) & (_ & Hcns & Hst' & _) & _).
      repeat split; try assumption.
      intros d' ch' Hch'. destruct (decide (d' = d)) as [-> | Hne].
      * rewrite Hch in Hch'. injection Hch' as <-.
        eexists. split; [exact Hsent |]. split; reflexivity.
      * exists ch'. rewrite Hothers by exact Hne. repeat split; assumption.
    + destruct (sendClientEvent_rejected amb message w Hopen Hobj) as (e & Hrun).
      unfold after. rewrite Hrun. apply steady_refl.
  - destruct (sendClientEvent_closed_run amb message w Hopen) as (note & Hrun).
    unfold after. rewrite Hrun. repeat split; eauto.
Qed.

Lemma steady_sendTextMessage amb1 amb2 message w :
  steady w (after (sendTextMessage amb1 amb2 message) w).
Proof.
  revert w. unfold sendTextMessage.
  apply steady_bind; [apply steady_allocate | intros l].
  apply steady_bind; [apply steady_sendClientEvent | intros _].
  apply steady_bind; [apply steady_allocate | intros l2].
  apply steady_sendClientEvent.
Qed.

Lemma on_message_cases amb d parsed w :
  after (on_message amb d parsed) w = w \/
  exists v c, parsed = Some v /\ attached w d = true /\
              original w (Remote d v) = Some c.
Proof.
  destruct (attached w d) eqn:Hon.
  - destruct parsed as [v|].
    + destruct (original w (Remote d v)) as [c|] eqn:Horig.
      * right. now exists v, c.
      * left. destruct (on_message_rejected amb d (Some v) w Hon) as (e & Hrun).
        { intros v' [= <-]. exact Horig. }
        unfold after. now rewrite Hrun.
    + left. destruct (on_message_rejected amb d None w Hon) as (e & Hrun);
        [discriminate |]. unfold after. now rewrite Hrun.
  - left. unfold after. now rewrite on_message_ignored.
Qed.

Lemma on_message_structured_frame amb d v c w :
  attached w d = true ->
  original w (Remote d v) = Some c ->
  let w' := after (on_message amb d (Some v)) w in
  apiKey (component w') = apiKey (component w) /\
  dataChannel (component w') = dataChannel (component w) /\
  peerConnection (component w') = peerConnection (component w) /\
  Browser.localStorage (browser w') = Browser.localStorage (browser w) /\
  Browser.connections (browser w') = Browser.connections (browser w).
Proof.
  destruct w as [[active evs dc key valid pc audio] [hp ts chs cns st al co]].
  unfold attached. cbn [original component browser Browser.channels Browser.heap].
  intros Hon Hc.
  unfold on_message, listening, materialize, allocate, get_property,
    set_property, setEvents. run. cbn. rewrite Hon. cbn.
  destruct v; try discriminate; injection Hc as <-;
    repeat first [ rewrite lookup_new | rewrite alter_new | progress cbn ];
    try match goal with
        | |- context [Js.truthy ?x] => destruct (Js.truthy x)
        end;
    repeat first [ rewrite lookup_new | rewrite alter_new | progress cbn ];
    repeat split; reflexivity.
Qed.

Lemma steady_on_message amb d parsed w :
  steady w (after (on_message amb d parsed) w).
Proof.
  destruct (on_message_cases amb d parsed w) as [-> | (v & c & -> & Hon & Horig)];
    [apply steady_refl |].
  destruct (on_message_structured amb d v c w Hon Horig) as (_ & _ & _ & Hchs).
  destruct (on_message_structured_frame amb d v c w Hon Horig)
    as (Hkey & Hdc & Hpc & Hst & Hcns).
  repeat split; try assumption.
  intros d' ch Hch. exists ch. rewrite Hchs. repeat split; assumption.
Qed.

Lemma steady_on_open d w : steady w (after (on_open d) w).
Proof.
  destruct w as [[active evs dc key valid pc audio] [hp ts chs cns st al co]].
  unfold on_open, listening, update_channel, setIsSessionActive, setEvents.
  run. cbn.
  assert (Hchs : forall d' ch, chs !! d' = Some ch ->
            exists ch', alter (Browser.set_ready_state Browser.Open) d chs !! d'
                        = Some ch' /\
                        Browser.listening ch' = Browser.listening ch /\
                        Browser.label ch' = Browser.label ch).
  { intros d' ch Hch. destruct (decide (d = d')) as [-> | Hne].
    - rewrite list_lookup_alter_eq, Hch. cbn. eauto.
    - rewrite list_lookup_alter_ne by exact Hne. eauto. }
  destruct (negb _); cbn; repeat split; eauto.
Qed.

Lemma steady_validate pr w : steady w (after (perform (Validate pr)) w).
Proof.
  unfold perform, after, bind, read. rewrite validateApiKey_run. cbn.
  destruct pr; repeat split; eauto.
Qed.

Lemma steady_persisted w w' : steady w w' -> persisted w -> persisted w'.
Proof.
  intros (Hkey & Hst & _) Hp. unfold persisted in *. rewrite Hkey, Hst. exact Hp.
Qed.

Lemma steady_handles_live w w' : steady w w' -> handles_live w -> handles_live w'.
Proof.
  intros (_ & _ & Hdc & Hpc & Hcns & Hchs) (Hd & Hp). split.
  - intros d Hd'. rewrite Hdc in Hd'. destruct (Hd d Hd') as (ch & Hch & Hl & Hn).
    destruct (Hchs d ch Hch) as (ch' & Hch' & Hl' & Hn').
    exists ch'. repeat split; congruence.
  - intros p Hp'. rewrite Hpc in Hp'. rewrite Hcns. now apply Hp.
Qed.

Lemma stopped_frame w :
  apiKey (component (stopped w)) = apiKey (component w) /\
  isKeyValid (component (stopped w)) = isKeyValid (component w) /\
  events (component (stopped w)) = events (component w) /\
  Browser.heap (browser (stopped w)) = Browser.heap (browser w) /\
  Browser.localStorage (browser (stopped w)) = Browser.localStorage (browser w) /\
  Browser.alerts (browser (stopped w)) = Browser.alerts (browser w) /\
  Browser.console (browser (stopped w)) = Browser.console (browser w).
Proof.
  unfold stopped. cbn [component browser apiKey isKeyValid events].
  destruct (dataChannel (component w)), (peerConnection (component w)) as [p|];
    unfold Browser.close_RTCPeerConnection; cbn;
    try (destruct (Browser.connections (browser w) !! p) as [pc|];
         [destruct (Browser.closed pc) |]);
    repeat split; reflexivity.
Qed.

Lemma run_actions_preserves (I : World -> Prop) :
  (forall a, preserves I (perform a)) ->
  forall l w, I w -> I (run_actions l w).
Proof.
  intros Hstep l. induction l as [|a l IH]; intros w Hw; cbn; [exact Hw |].
  apply IH. now apply Hstep.
Qed.

Lemma steady_or_not (a : action) :
  match a with
  | Start _ | Stop | SaveKey _ => True
  | _ => forall w, steady w (after (perform a) w)
  end.
Proof.
  destruct a as [cell | env | | amb message | amb1 amb2 message | amb d parsed | d | pr | value];
    cbn [perform]; try exact I; intros w.
  - revert w. apply steady_bind; [apply steady_allocate |].
    intros _ w. apply steady_refl.
  - apply steady_sendClientEvent.
  - apply steady_sendTextMessage.
  - apply steady_on_message.
  - apply steady_on_open.
  - apply steady_validate.
Qed.

Lemma persisted_step a : preserves persisted (perform a).
Proof.
  pose proof (steady_or_not a) as Hsteady.
  destruct a as [cell | env | | amb message | amb1 amb2 message | amb d parsed | d | pr | value];
    cbn [perform] in *; intros w Hp;
    try (eapply steady_persisted; [apply Hsteady | exact Hp]).
  - destruct (startSession_effect env w) as (_ & (_ & _ & Hkey & _ & Hst) & _).
    unfold persisted in *. rewrite Hkey, Hst. exact Hp.
  - unfold after. rewrite stopSession_run. cbn [snd].
    destruct (stopped_frame w) as (Hkey & _ & _ & _ & Hst & _).
    unfold persisted in *. rewrite Hkey, Hst. exact Hp.
  - unfold after. rewrite setApiKey_run. unfold persisted in *.
    cbn [snd component browser apiKey]. intros Hne.
    destruct (String.eqb (apiKey (component w)) value) eqn:E.
    + apply String.eqb_eq in E. subst value. now apply Hp.
    + apply truthy_text in Hne. rewrite Hne. cbn. apply lookup_insert_eq.
Qed.

(** X13.  In every state the application reaches from its first render,
    whatever the user does and whatever the browser and the provider
    answer, a non-empty current credential is the one held in local
    storage: what the next start of the application loads is the credential
    in use now. *)
Theorem reachable_persisted storage probe actions :
  let w := run_actions actions (mounted storage probe) in
  persisted w /\
  (apiKey (component w) <> "" ->
   apiKey (component (initial (Browser.localStorage (browser w)))) =
   apiKey (component w)).
Proof.
  cbn zeta.
  assert (Hp : persisted (run_actions actions (mounted storage probe))).
  { apply run_actions_preserves; [apply persisted_step |].
    apply persisted_initial. }
  split; [exact Hp |]. intros Hne. unfold initial. cbn. now rewrite (Hp Hne).
Qed.

Lemma history_stamped_same w w' :
  events (component w') = events (component w) ->
  Browser.heap (browser w') = Browser.heap (browser w) ->
  history_stamped w -> history_stamped w'.
Proof.
  intros Hev Hheap Hh x Hx. rewrite Hev in Hx. destruct (Hh x Hx) as (c & Hc & Hts).
  exists c. split; [| exact Hts]. destruct x; cbn in *; congruence.
Qed.

Lemma history_stamped_allocate c : preserves history_stamped (allocate c).
Proof.
  intros w Hh x Hx. cbn in Hx. destruct (Hh x Hx) as (c0 & Hc0 & Hts).
  exists c0. split; [| exact Hts]. destruct x as [l | v]; [| discriminate].
  cbn in *. now apply lookup_app_l_Some.
Qed.

Lemma history_stamped_sendClientEvent amb message :
  preserves history_stamped (sendClientEvent amb message).
Proof.
  intros w Hh. destruct (channel_open w) eqn:Hopen.
  - destruct (object_of w message) as [c|] eqn:Hobj.
    + destruct message as [l | v]; [| discriminate]. cbn in Hobj.
      apply channel_open_inv in Hopen as (d & ch & Hd & Hch & Hst).
      destruct (sendClientEvent_open amb l c d ch w Hd Hch Hst Hobj)
        as (_ & Hev & Hnew & Hothers & _).
      assert (Hl : exists c', object_of (after (sendClientEvent amb (Ref l)) w) (Ref l)
                              = Some c' /\
                              Js.truthy (Js.get "timestamp" (Js.fields c')) = true).
      { eexists. split; [exact Hnew | apply dated_timestamp]. }
      intros x Hx. rewrite Hev in Hx. destruct Hx as [<- | Hx]; [exact Hl |].
      destruct (Hh x Hx) as (c0 & Hc0 & Hts).
      destruct x as [l' | v]; [| discriminate].
      destruct (decide (l' = l)) as [-> | Hne]; [exact Hl |].
      exists c0. split; [| exact Hts]. cbn in *.
      rewrite Hothers by exact Hne. exact Hc0.
    + destruct (sendClientEvent_rejected amb message w Hopen Hobj) as (e & Hrun).
      unfold after. rewrite Hrun. exact Hh.
  - destruct (sendClientEvent_closed_run amb message w Hopen) as (note & Hrun).
    unfold after. rewrite Hrun. now apply (history_stamped_same w).
Qed.

Lemma history_stamped_step a : preserves history_stamped (perform a).
Proof.
  destruct a as [cell | env | | amb message | amb1 amb2 message | amb d parsed | d | pr | value];
    cbn [perform].
  - apply preserves_bind; [apply history_stamped_allocate |].
    intros _ w Hh. exact Hh.
  - intros w. destruct (startSession_effect env w) as (_ & (_ & Hev & _ & Hheap & _) & _).
    now apply history_stamped_same.
  - intros w. unfold after. rewrite stopSession_run. cbn [snd].
    destruct (stopped_frame w) as (_ & _ & Hev & Hheap & _).
    now apply history_stamped_same.
  - apply history_stamped_sendClientEvent.
  - unfold sendTextMessage.
    apply preserves_bind; [apply history_stamped_allocate | intros l].
    apply preserves_bind; [apply history_stamped_sendClientEvent | intros _].
    apply preserves_bind; [apply history_stamped_allocate | intros l2].
    apply history_stamped_sendClientEvent.
  - intros w Hh.
    destruct (on_message_cases amb d parsed w) as [-> | (v & c & -> & Hon & Horig)];
      [exact Hh |].
    destruct (on_message_structured amb d v c w Hon Horig) as (_ & Hev & Hheap & _).
    intros x Hx. rewrite Hev in Hx. destruct Hx as [<- | Hx].
    + exists (dated amb c). split; [| apply dated_timestamp].
      cbn. rewrite Hheap. apply lookup_new.
    + destruct (Hh x Hx) as (c0 & Hc0 & Hts). exists c0. split; [| exact Hts].
      destruct x as [l | p]; [| discriminate]. cbn in *. rewrite Hheap.
      now apply lookup_app_l_Some.
  - intros [[active evs dc key valid pc audio] [hp ts chs cns st al co]] Hh.
    unfold after, on_open, listening, update_channel, setIsSessionActive, setEvents.
    run. cbn. destruct (negb _); cbn.
    + intros x Hx. destruct (Hh x Hx) as (c0 & Hc0 & Hts). exists c0.
      split; [| exact Hts]. now destruct x.
    + intros x [].
  - intros w. unfold after, bind, read. rewrite validateApiKey_run. cbn.
    apply history_stamped_same; [reflexivity |]. now destruct pr.
  - intros w. unfold after. rewrite setApiKey_run. cbn [snd].
    apply history_stamped_same; [reflexivity |]. cbn.
    destruct (String.eqb _ _); [reflexivity |]. now destruct (negb _).
Qed.

(** X14.  In every state the application reaches from its first render,
    every entry of the event history is an object that carries a display
    timestamp, whether it was received, built by [sendTextMessage] or built
    by another caller of [sendClientEvent], and however often the same
    object was sent. *)
Theorem reachable_history_stamped storage probe actions :
  history_stamped (run_actions actions (mounted storage probe)).
Proof.
  apply run_actions_preserves; [apply history_stamped_step |].
  rewrite mount_run. intros x [].
Qed.

Lemma handles_live_step a : preserves handles_live (perform a).
Proof.
  pose proof (steady_or_not a) as Hsteady.
  destruct a as [cell | env | | amb message | amb1 amb2 message | amb d parsed | d | pr | value];
    cbn [perform] in *; intros w Hlive;
    try (eapply steady_handles_live; [apply Hsteady | exact Hlive]).
  - destruct (startSession_effect env w)
      as (_ & _ & (Hcns & Hchs & _) & Hdc & [Hpc | (n & sdp & answer & Hcred & Hgo)]).
    + destruct Hlive as (Hd & Hp). split.
      * intros d Hd'. destruct Hdc as [Hsame | (Hnew & Hch)].
        -- rewrite Hsame in Hd'. destruct (Hd d Hd') as (ch & Hch & Hrest).
           exists ch. split; [now apply Hchs | exact Hrest].
        -- rewrite Hnew in Hd'. injection Hd' as <-.
           eexists. split; [exact Hch |]. split; reflexivity.
      * intros p Hp'. rewrite Hpc in Hp'. destruct (Hp p Hp') as (pc & Hpc' & Hrest).
        exists pc. split; [now apply Hcns | exact Hrest].
    + unfold after. rewrite (startSession_success_run w env n sdp answer Hcred Hgo).
      cbn [snd]. unfold started. split; cbn.
      * intros d [= <-]. rewrite lookup_new. eexists. split; [reflexivity |].
        split; reflexivity.
      * intros p [= <-]. rewrite lookup_new. eexists. split; [reflexivity |].
        repeat split; eauto.
  - unfold after. rewrite stopSession_run. split; cbn; discriminate.
  - unfold after. rewrite setApiKey_run. cbn [snd]. destruct Hlive as (Hd & Hp).
    assert (Hsame :
      Browser.channels
        (if String.eqb (apiKey (component w)) value then browser w
         else if Js.truthy (Js.VStr value)
              then Browser.with_localStorage
                     (<[storage_key := value]> (Browser.localStorage (browser w)))
                     (browser w)
              else browser w) = Browser.channels (browser w) /\
      Browser.connections
        (if String.eqb (apiKey (component w)) value then browser w
         else if Js.truthy (Js.VStr value)
              then Browser.with_localStorage
                     (<[storage_key := value]> (Browser.localStorage (browser w)))
                     (browser w)
              else browser w) = Browser.connections (browser w)).
    { destruct (String.eqb _ _); [now split |].
      destruct (Js.truthy _); now split. }
    destruct Hsame as (Hchs & Hcns).
    split; cbn [component browser dataChannel peerConnection].
    + rewrite Hchs. exact Hd.
    + rewrite Hcns. exact Hp.
Qed.

(** X15.  In every state the application reaches from its first render,
    the handles refer to objects in use: a retained channel is an existing
    [oai-events] channel that has the component's listeners attached, and a
    retained connection is an existing connection that has not been closed,
    has the ontrack handler and has both the offer and the answer
    committed. *)
Theorem reachable_handles_live storage probe actions :
  handles_live (run_actions actions (mounted storage probe)).
Proof.
  apply run_actions_preserves; [apply handles_live_step |].
  rewrite mount_run. split; cbn; discriminate.
Qed.

(** *** The text input of an active session *)

Lemma trimEnd_nonblank c r :
  SessionActive.is_whitespace c = false ->
  SessionActive.trimEnd (String c r) <> "".
Proof.
  intros Hc. cbn. rewrite Hc.
  destruct (SessionActive.trimEnd r); discriminate.
Qed.

Lemma trim_truthy s :
  Js.truthy (Js.VStr (SessionActive.trim s)) = negb (SessionActive.blank s).
Proof.
  unfold SessionActive.trim. induction s as [|c r IH]; [reflexivity |].
  cbn [SessionActive.trimStart SessionActive.blank].
  destruct (SessionActive.is_whitespace c) eqn:Hc; cbn [andb]; [exact IH |].
  cbn [negb]. apply truthy_text. now apply trimEnd_nonblank.
Qed.

Lemma sendClientEvent_object_returns amb l c w :
  Browser.heap (browser w) !! l = Some c ->
  threw (sendClientEvent amb (Ref l)) w = false.
Proof.
  intros Hc. destruct (channel_open w) eqn:Hopen.
  - apply channel_open_inv in Hopen as (d & ch & Hd & Hch & Hst).
    now destruct (sendClientEvent_open amb l c d ch w Hd Hch Hst Hc).
  - destruct (sendClientEvent_closed_run amb (Ref l) w Hopen) as (note & Hrun).
    unfold threw. now rewrite Hrun.
Qed.

Lemma sendTextMessage_returns amb1 amb2 message w :
  threw (sendTextMessage amb1 amb2 message) w = false.
Proof.
  assert (H1 : threw (sendClientEvent amb1 (Ref (length (Browser.heap (browser w)))))
                 (after (allocate (text_event message)) w) = false).
  { eapply sendClientEvent_object_returns. apply lookup_new. }
  unfold threw at 1. rewrite (sendTextMessage_unfold amb1 amb2 message w H1).
  eapply sendClientEvent_object_returns.
  exact (lookup_new (Browser.heap (browser _)) [] response_create).
Qed.

(** X16.  The send button and the Enter key of the text input send
    nothing when the input is empty or holds only white space: the state
    and the input are left as they are.  Otherwise they call
    [sendTextMessage] with the input exactly as typed, white space at its
    ends included, and empty the input.  Any other key does nothing. *)
Theorem text_input_sends_nonblank amb1 amb2 key message w :
  SessionActive.send_clicked amb1 amb2 message w =
    (if SessionActive.blank message then (Return message, w)
     else (Return "", after (sendTextMessage amb1 amb2 message) w)) /\
  SessionActive.key_pressed amb1 amb2 key message w =
    (if String.eqb key "Enter"
     then SessionActive.send_clicked amb1 amb2 message w
     else (Return message, w)).
Proof.
  assert (Hsend : SessionActive.handleSendClientEvent amb1 amb2 message w =
                  (Return "", after (sendTextMessage amb1 amb2 message) w)).
  { unfold SessionActive.handleSendClientEvent, bind.
    rewrite (returned (sendTextMessage_returns amb1 amb2 message w)).
    reflexivity. }
  unfold SessionActive.send_clicked, SessionActive.key_pressed.
  rewrite trim_truthy.
  destruct (SessionActive.blank message), (String.eqb key "Enter"); cbn;
    rewrite ?Hsend; split; reflexivity.
Qed.

(** *** What stopping and sending leave alone *)

Lemma release_tracks_other ss : forall ts i,
  Some i ∉ ss -> release_tracks ss ts !! i = ts !! i.
Proof.
  induction ss as [|[tr|] ss IH]; intros ts i Hnot; [reflexivity | |].
  - change (release_tracks (Some tr :: ss) ts)
      with (release_tracks ss (alter Browser.stop_track tr ts)).
    rewrite IH by (intros Hin; apply Hnot; now right).
    apply list_lookup_alter_ne. intros ->. apply Hnot. now left.
  - change (release_tracks (None :: ss) ts) with (release_tracks ss ts).
    apply IH. intros Hin. apply Hnot. now right.
Qed.

Lemma close_connection_others p b q :
  q <> p ->
  Browser.connections (Browser.close_RTCPeerConnection p b) !! q =
  Browser.connections b !! q.
Proof.
  intros Hne. unfold Browser.close_RTCPeerConnection.
  destruct (Browser.connections b !! p) as [pc|]; [| reflexivity].
  destruct (Browser.closed pc); [reflexivity |]. cbn.
  apply list_lookup_alter_ne. congruence.
Qed.

(** X17.  [stopSession] acts on the retained objects only: every channel
    that is neither the retained one nor a channel created on the retained
    connection, every connection other than the retained one and every
    track that no sender of the retained connection carries is exactly as
    it was, and so are the event history, the heap, the credential, its
    validity flag and local storage; it shows no alert and writes nothing
    to the console. *)
Theorem stopSession_touches_only_retained w :
  let w' := after stopSession w in
  (forall d ch,
     dataChannel (component w) <> Some d ->
     Browser.channels (browser w) !! d = Some ch ->
     peerConnection (component w) <> Some (Browser.connection ch) ->
     Browser.channels (browser w') !! d = Some ch) /\
  (forall p, peerConnection (component w) <> Some p ->
     Browser.connections (browser w') !! p = Browser.connections (browser w) !! p) /\
  (forall tr, Some tr ∉ retained_senders w ->
     Browser.tracks (browser w') !! tr = Browser.tracks (browser w) !! tr) /\
  events (component w') = events (component w) /\
  Browser.heap (browser w') = Browser.heap (browser w) /\
  apiKey (component w') = apiKey (component w) /\
  isKeyValid (component w') = isKeyValid (component w) /\
  Browser.localStorage (browser w') = Browser.localStorage (browser w) /\
  Browser.alerts (browser w') = Browser.alerts (browser w) /\
  Browser.console (browser w') = Browser.console (browser w).
Proof.
  unfold after. rewrite stopSession_run. cbn [snd].
  destruct (stopped_frame w) as (Hkey & Hvalid & Hev & Hheap & Hst & Hal & Hco).
  split; [| split; [| split; [| now repeat split]]].
  - intros d ch Hd Hch Hown. unfold stopped. cbn [browser].
    set (b2 := Browser.with_tracks _ _).
    assert (H2 : Browser.channels b2 !! d = Some ch).
    { subst b2. destruct (dataChannel (component w)) as [d0|]; cbn; [| exact Hch].
      rewrite list_lookup_alter_ne by congruence. exact Hch. }
    destruct (peerConnection (component w)) as [p|]; [| exact H2].
    destruct (close_connection_channel p b2 d ch H2) as [-> | ->]; [reflexivity |].
    f_equal. apply closed_by_other. congruence.
  - intros p Hp. unfold stopped. cbn [browser].
    set (b2 := Browser.with_tracks _ _).
    assert (H2 : Browser.connections b2 = Browser.connections (browser w)).
    { subst b2. now destruct (dataChannel (component w)). }
    destruct (peerConnection (component w)) as [p0|]; [| now rewrite H2].
    rewrite close_connection_others by congruence. now rewrite H2.
  - intros tr Htr. unfold stopped. cbn [browser].
    set (b1 := match dataChannel (component w) with Some _ => _ | None => _ end).
    assert (H1 : Browser.tracks b1 = Browser.tracks (browser w)).
    { subst b1. now destruct (dataChannel (component w)). }
    destruct (peerConnection (component w)) as [p0|];
      rewrite ?close_connection_tracks; cbn; rewrite H1;
      now apply release_tracks_other.
Qed.

(** X18.  With the channel open, [sendClientEvent] on an object hands
    exactly one frame to the retained channel and none to any other: the
    serialization of the message once its identifier is settled.  The
    identifier in that frame is the one the history entry carries, the
    channel is still open afterwards, and no connection, track, alert or
    console line is touched. *)
Theorem sendClientEvent_transmits_once amb l c w :
  channel_open w = true ->
  Browser.heap (browser w) !! l = Some c ->
  let w' := after (sendClientEvent amb (Ref l)) w in
  exists d,
    dataChannel (component w) = Some d /\
    frames w' d = (frames w d ++ [Js.stringify (identified amb c)])%list /\
    (forall d', d' <> d -> frames w' d' = frames w d') /\
    channel_open w' = true /\
    (exists c', object_of w' (Ref l) = Some c' /\
                Js.get "event_id" (Js.fields c') =
                Js.get "event_id" (Js.fields (identified amb c)) /\
                Js.truthy (Js.get "event_id" (Js.fields c')) = true) /\
    Browser.connections (browser w') = Browser.connections (browser w) /\
    Browser.tracks (browser w') = Browser.tracks (browser w) /\
    Browser.alerts (browser w') = Browser.alerts (browser w) /\
    Browser.console (browser w') = Browser.console (browser w).
Proof.
  intros Hopen Hc. cbn zeta.
  apply channel_open_inv in Hopen as (d & ch & Hd & Hch & Hst).
  destruct (sendClientEvent_open amb l c d ch w Hd Hch Hst Hc)
    as (_ & _ & Hobj & _ & Hsent & Hothers).
  destruct (sendClientEvent_open_frame amb l c d ch w Hd Hch Hst Hc)
    as ((_ & Hdc & _) & (Hts & Hcns & _ & Hal & Hco) & _).
  exists d. split; [exact Hd |]. split; [| split; [| split; [| split]]].
  - unfold frames. now rewrite Hsent, Hch.
  - intros d' Hne. unfold frames. now rewrite Hothers.
  - unfold channel_open. rewrite Hdc, Hd, Hsent. cbn. now rewrite Hst.
  - eexists. split; [exact Hobj |]. rewrite dated_other by discriminate.
    split; [reflexivity |]. rewrite identified_id.
    destruct (Js.truthy (Js.get "event_id" (Js.fields c))) eqn:E;
      [exact E | reflexivity].
  - repeat split; assumption.
Qed.

Lemma sendClientEvent_transmits_once_witness :
  channel_open ready_world = true /\
  Browser.heap (browser ready_world) !! 0 = Some bare_message /\
  channel_open (after (sendClientEvent sample_ambient (Ref 0)) ready_world) = true.
Proof.
  split; [reflexivity |]. split; [reflexivity |].
  destruct (sendClientEvent_transmits_once sample_ambient 0 bare_message
              ready_world eq_refl eq_refl) as (d & _ & _ & _ & Hopen & _).
  exact Hopen.
Defined.
